(** * Quadcopter.cpp: custom-data codec, role search and PID flight controller

    A shallow embedding of [src/Quadcopter.cpp] (V-REP quadcopter plug-in).

    - C++ [int] object handles and [uint32_t] field ids are [Z].
    - [std::vector<uint8_t>] is [list Byte.byte]; an iterator pair
      [(p, end)] is the list of the bytes that remain between them.
    - [std::map<uint32_t, byte_vector>] is [gmap Z (list Byte.byte)].
    - [float] is IEEE-754 binary32, round to nearest even, taken from the
      executable specification [SpecFloat] at precision 24 and [emax] 128
      (every operation rounded to binary32, no contraction).
    - the V-REP API ([sim...] functions) is a record of functions, [Host];
      an API call that reports failure (returns -1 or NULL) is [None].
    - [throw], undefined behaviour and loops that may not end are outcomes
      of the result type [res]. *)

From Stdlib Require Import ZArith List Lia Bool String.
From Stdlib Require Import Floats.SpecFloat.
From stdpp Require Import gmap list strings pretty.
Import ListNotations.
Open Scope Z_scope.

(** ** Outcomes of a C++ call *)

(** [std::runtime_error(what)]. *)
Inductive exn : Type :=
| runtime_error (what : string).

Inductive res (A : Type) : Type :=
| Ret (a : A)            (* normal return *)
| Throw (e : exn)        (* an exception leaves the function *)
| Undefined              (* the call reads outside a buffer *)
| OutOfFuel.             (* the loop did not end within the given fuel *)

Arguments Ret {A} a.
Arguments Throw {A} e.
Arguments Undefined {A}.
Arguments OutOfFuel {A}.

#[global] Instance res_ret : MRet res := fun A a => Ret a.

#[global] Instance res_bind : MBind res := fun A B f m =>
  match m with
  | Ret a => f a
  | Throw e => Throw e
  | Undefined => Undefined
  | OutOfFuel => OutOfFuel
  end.

(** ** binary32 arithmetic *)

Module F32.

Definition prec : Z := 24.
Definition emax : Z := 128.

Definition float : Type := spec_float.

Definition add : float -> float -> float := SFadd prec emax.
Definition sub : float -> float -> float := SFsub prec emax.
Definition mul : float -> float -> float := SFmul prec emax.
Definition div : float -> float -> float := SFdiv prec emax.
Definition neg : float -> float := SFopp.

(** The integer [z] as a float (exact for [|z| < 2^24]). *)
Definition of_Z (z : Z) : float := binary_normalize prec emax z 0 false.

(** The decimal literal [n/d] with the suffix [f]: the binary32 nearest to
    the quotient of two exactly representable integers. *)
Definition lit (n d : Z) : float := div (of_Z n) (of_Z d).

Definition zero : float := S754_zero false.

(** [x] is [+0.0] or [-0.0]. *)
Definition is_zero (x : float) : bool :=
  match x with S754_zero _ => true | _ => false end.

(** [x] is neither a NaN nor an infinity. *)
Definition is_finite (x : float) : bool :=
  match x with S754_zero _ | S754_finite _ _ _ => true | _ => false end.

End F32.

Declare Scope f32_scope.
Delimit Scope f32_scope with f32.
Bind Scope f32_scope with F32.float.
Infix "+" := F32.add : f32_scope.
Infix "-" := F32.sub : f32_scope.
Infix "*" := F32.mul : f32_scope.
Notation "- x" := (F32.neg x) : f32_scope.

(** ** Custom data codec *)

(** Header number and field ids ([#define]s of the source). *)
Definition DATA_ID : Z := 1000.
Definition FIELD_QUADCOPTER : Z := 0.
Definition FIELD_MOTOR_0 : Z := 1.
Definition FIELD_MOTOR_1 : Z := 2.
Definition FIELD_MOTOR_2 : Z := 3.
Definition FIELD_MOTOR_3 : Z := 4.
Definition FIELD_CAMERA_DOWN : Z := 5.
Definition FIELD_CAMERA_FRONT : Z := 6.
Definition FIELD_BODY : Z := 7.
Definition FIELD_TARGET : Z := 8.

Abbreviation byte_vector := (list Byte.byte).
Abbreviation CustomData := (gmap Z (list Byte.byte)).

Definition format_error : exn := runtime_error "custom data format error".

(** [(uint32_t) b]. *)
Definition byte_to_Z (b : Byte.byte) : Z := Z.of_N (Byte.to_N b).

(** [parseUint32(p, end)]: [p] is the list of bytes from the iterator to
    [end]; the result is the integer and the advanced iterator. *)
Definition parseUint32 (p : byte_vector) : res (Z * byte_vector) :=
  match p with
  | b0 :: b1 :: b2 :: b3 :: p' =>
      Ret (Z.lor (Z.shiftl (byte_to_Z b0) 0)
            (Z.lor (Z.shiftl (byte_to_Z b1) 8)
              (Z.lor (Z.shiftl (byte_to_Z b2) 16)
                     (Z.shiftl (byte_to_Z b3) 24))),
           p')
  | _ => Throw format_error                     (* end - p < 4 *)
  end.

(** The [while (p != end)] loop of [parseCustomData].  The source builds
    [byte_vector(p, p + len)] and advances [p] by [len] without comparing
    [len] with [end - p]: when [len] exceeds the bytes that remain, the
    copy reads past the end of the buffer. *)
Fixpoint parseLoop (fuel : nat) (p : byte_vector) (result : CustomData)
  : res CustomData :=
  match fuel with
  | O => OutOfFuel
  | S fuel' =>
      match p with
      | [] => Ret result
      | _ =>
          '(id, p1) ← parseUint32 p;
          '(len, p2) ← parseUint32 p1;
          if Z.of_nat (length p2) <? len then Undefined
          else parseLoop fuel' (drop (Z.to_nat len) p2)
                 (<[id := take (Z.to_nat len) p2]> result)
      end
  end.

(** Every iteration that continues consumes at least eight bytes, so the
    length of the buffer (plus one for the final test) is enough fuel. *)
Definition parseCustomData (buf : byte_vector) : res CustomData :=
  parseLoop (S (length buf)) buf ∅.

(** ** The host (V-REP API) *)

(** A C array of floats ([float a[3]], [float m[12]]): entry [i] is [a i]. *)
Definition floats : Type := nat -> F32.float.

Definition floats_of (l : list F32.float) : floats :=
  fun i => nth i l F32.zero.

Record Host : Type := {
  (* size of the custom data of an object under a header, or -1 *)
  simGetObjectCustomDataLength : Z -> Z -> Z;
  (* the bytes the host copies into the caller's buffer *)
  simGetObjectCustomData : Z -> Z -> byte_vector;
  (* child number [index] of an object, or -1 when there is none *)
  simGetObjectChild : Z -> Z -> Z;
  (* script handle of an object, or -1 *)
  simGetScriptAssociatedWithObject : Z -> Z;
  (* text of a script parameter, [None] for NULL *)
  simGetScriptSimulationParameter : Z -> string -> option string;
  (* pose and kinematics queries; [None] when the call returns -1 *)
  simGetObjectPosition : Z -> Z -> option floats;
  simGetObjectVelocity : Z -> option floats;
  simGetObjectMatrix : Z -> Z -> option floats;
  simTransformVector : floats -> floats -> option floats;
  simGetObjectOrientation : Z -> Z -> option floats
}.

(** ** Role search *)

(** [std::deque<int>] together with a ghost record of every [push_back]
    made so far, oldest first.  The ghost part is never read by the code. *)
Record deque : Type := {
  items : list Z;
  pushed : list Z
}.

Definition deque_empty : deque := {| items := []; pushed := [] |}.

Definition push_back (q : deque) (x : Z) : deque :=
  {| items := items q ++ [x]; pushed := pushed q ++ [x] |}.

(** Several [push_back] in a row. *)
Definition push_all (q : deque) (l : list Z) : deque :=
  {| items := items q ++ l; pushed := pushed q ++ l |}.

Section Search.

Variable h : Host.

(** [std::vector<uint8_t> buf(size)] after [simGetObjectCustomData] has
    written the object's data over its [size] zero bytes. *)
Definition customDataBuffer (obj size : Z) : byte_vector :=
  take (Z.to_nat size)
    (simGetObjectCustomData h obj DATA_ID
       ++ replicate (Z.to_nat size) Byte.x00).

(** [hasCustomDataField(obj, field)].  An exception of [parseCustomData]
    is not caught here. *)
Definition hasCustomDataField (obj field : Z) : res bool :=
  let size := simGetObjectCustomDataLength h obj DATA_ID in
  if size <=? 0 then Ret false
  else
    data ← parseCustomData (customDataBuffer obj size);
    Ret (bool_decide (is_Some (data !! field))).

(** The inner [for (;;)] loop of [searchCustomDataField], from child
    index [i] on. *)
Fixpoint enqueueChildren (fuel : nat) (obj i : Z) (q : deque) : res deque :=
  match fuel with
  | O => OutOfFuel
  | S fuel' =>
      let child := simGetObjectChild h obj i in
      if child =? -1 then Ret q
      else enqueueChildren fuel' obj (i + 1) (push_back q child)
  end.

(** The [while (!q.empty())] loop.  One unit of fuel per iteration; the
    inner loop may use as many steps as remain.  The second component is
    the ghost list of everything that was ever enqueued. *)
Fixpoint searchLoop (fuel : nat) (field : Z) (q : deque) : res Z * list Z :=
  match fuel with
  | O => (OutOfFuel, pushed q)
  | S fuel' =>
      match items q with
      | [] => (Ret (-1), pushed q)
      | obj :: rest =>
          let q := {| items := rest; pushed := pushed q |} in
          match hasCustomDataField obj field with
          | Ret true => (Ret obj, pushed q)
          | Ret false =>
              match enqueueChildren fuel' obj 0 q with
              | Ret q' => searchLoop fuel' field q'
              | Throw e => (Throw e, pushed q)
              | Undefined => (Undefined, pushed q)
              | OutOfFuel => (OutOfFuel, pushed q)
              end
          | Throw e => (Throw e, pushed q)
          | Undefined => (Undefined, pushed q)
          | OutOfFuel => (OutOfFuel, pushed q)
          end
      end
  end.

Definition searchTrace (fuel : nat) (root field : Z) : res Z * list Z :=
  searchLoop fuel field (push_back deque_empty root).

(** [searchCustomDataField(root, field)]. *)
Definition searchCustomDataField (fuel : nat) (root field : Z) : res Z :=
  fst (searchTrace fuel root field).

(** [Quadcopter::query(obj)]. *)
Definition query (obj : Z) : res bool :=
  hasCustomDataField obj FIELD_QUADCOPTER.

End Search.

(** ** The quadcopter object *)

(** Modelled from the spec: the data members of class [Quadcopter] are
    declared in [Quadcopter.h], which is not among the sources; their names
    are those used in [Quadcopter.cpp], their types those of the values
    assigned to them there (object handles, [float]s).  [Bindings] holds
    the handles bound by the constructor; [pidControl] only reads them. *)
Record Bindings : Type := {
  m_obj : Z;
  m_uniqueID : Z;
  m_body : Z;
  m_target : Z;
  m_cameraDown : Z;
  m_cameraFront : Z;
  m_motors : list Z            (* int m_motors[4] *)
}.

(** Modelled from the spec: the controller memory of class [Quadcopter]
    ([Quadcopter.h] is not among the sources), that is the members that
    [simulationStarted] resets and [pidControl] updates. *)
Record ControllerState : Type := {
  m_last_save_time : F32.float;
  m_cumul : F32.float;
  m_lastE : F32.float;
  m_pAlphaE : F32.float;
  m_pBetaE : F32.float;
  m_psp0 : F32.float;
  m_psp1 : F32.float;
  m_prevEuler : F32.float
}.

Record Quadcopter : Type := {
  bindings : Bindings;
  state : ControllerState
}.

Definition set_m_cumul (v : F32.float) (s : ControllerState) : ControllerState :=
  {| m_last_save_time := m_last_save_time s; m_cumul := v;
     m_lastE := m_lastE s; m_pAlphaE := m_pAlphaE s; m_pBetaE := m_pBetaE s;
     m_psp0 := m_psp0 s; m_psp1 := m_psp1 s; m_prevEuler := m_prevEuler s |}.

Definition set_m_lastE (v : F32.float) (s : ControllerState) : ControllerState :=
  {| m_last_save_time := m_last_save_time s; m_cumul := m_cumul s;
     m_lastE := v; m_pAlphaE := m_pAlphaE s; m_pBetaE := m_pBetaE s;
     m_psp0 := m_psp0 s; m_psp1 := m_psp1 s; m_prevEuler := m_prevEuler s |}.

Definition set_m_pAlphaE (v : F32.float) (s : ControllerState) : ControllerState :=
  {| m_last_save_time := m_last_save_time s; m_cumul := m_cumul s;
     m_lastE := m_lastE s; m_pAlphaE := v; m_pBetaE := m_pBetaE s;
     m_psp0 := m_psp0 s; m_psp1 := m_psp1 s; m_prevEuler := m_prevEuler s |}.

Definition set_m_pBetaE (v : F32.float) (s : ControllerState) : ControllerState :=
  {| m_last_save_time := m_last_save_time s; m_cumul := m_cumul s;
     m_lastE := m_lastE s; m_pAlphaE := m_pAlphaE s; m_pBetaE := v;
     m_psp0 := m_psp0 s; m_psp1 := m_psp1 s; m_prevEuler := m_prevEuler s |}.

Definition set_m_psp0 (v : F32.float) (s : ControllerState) : ControllerState :=
  {| m_last_save_time := m_last_save_time s; m_cumul := m_cumul s;
     m_lastE := m_lastE s; m_pAlphaE := m_pAlphaE s; m_pBetaE := m_pBetaE s;
     m_psp0 := v; m_psp1 := m_psp1 s; m_prevEuler := m_prevEuler s |}.

Definition set_m_psp1 (v : F32.float) (s : ControllerState) : ControllerState :=
  {| m_last_save_time := m_last_save_time s; m_cumul := m_cumul s;
     m_lastE := m_lastE s; m_pAlphaE := m_pAlphaE s; m_pBetaE := m_pBetaE s;
     m_psp0 := m_psp0 s; m_psp1 := v; m_prevEuler := m_prevEuler s |}.

Definition set_m_prevEuler (v : F32.float) (s : ControllerState) : ControllerState :=
  {| m_last_save_time := m_last_save_time s; m_cumul := m_cumul s;
     m_lastE := m_lastE s; m_pAlphaE := m_pAlphaE s; m_pBetaE := m_pBetaE s;
     m_psp0 := m_psp0 s; m_psp1 := m_psp1 s; m_prevEuler := v |}.

(** [Quadcopter::simulationStarted()]. *)
Definition simulationStarted (q : Quadcopter) : Quadcopter :=
  {| bindings := bindings q;
     state := {| m_last_save_time := F32.of_Z 0;
                 m_cumul := F32.lit 0 1;
                 m_lastE := F32.lit 0 1;
                 m_pAlphaE := F32.lit 0 1;
                 m_pBetaE := F32.lit 0 1;
                 m_psp0 := F32.lit 0 1;
                 m_psp1 := F32.lit 0 1;
                 m_prevEuler := F32.lit 0 1 |} |}.

(** [Quadcopter::simulationStopped()]. *)
Definition simulationStopped (q : Quadcopter) : Quadcopter := q.

(** ** Effects of the controller *)

(** What a call leaves behind outside the object: calls of
    [simSetScriptSimulationParameter] and lines printed on [stderr]. *)
Inductive event : Type :=
| SetScriptSimulationParameter (script : Z) (name : string) (value : string)
| CheckFailed (line : Z) (expr : string)      (* "%s:%d: %s failed" *)
| Stderr (msg : string).

(** A computation inside a [void] member function: from the controller
    state to the new state, the events in order, and [Some a] when control
    goes on with [a], [None] when the function has returned. *)
Definition Tick (A : Type) : Type :=
  ControllerState -> ControllerState * list event * option A.

#[global] Instance Tick_ret : MRet Tick := fun A a s => (s, [], Some a).

#[global] Instance Tick_bind : MBind Tick := fun A B f m s =>
  match m s with
  | (s1, l1, Some a) =>
      match f a s1 with
      | (s2, l2, r) => (s2, l1 ++ l2, r)
      end
  | (s1, l1, None) => (s1, l1, None)
  end.

Definition gets {A : Type} (f : ControllerState -> A) : Tick A :=
  fun s => (s, [], Some (f s)).

Definition modify (f : ControllerState -> ControllerState) : Tick unit :=
  fun s => (f s, [], Some tt).

Definition emit (e : event) : Tick unit :=
  fun s => (s, [e], Some tt).

(** The macro [CHECK(expr)] around an API call that fills an array: on -1
    it prints the diagnostic and returns from the enclosing function. *)
Definition CHECK {A : Type} (line : Z) (expr : string) (r : option A) : Tick A :=
  fun s =>
    match r with
    | Some a => (s, [], Some a)
    | None => (s, [CheckFailed line expr], None)
    end.

(** ** Actuators and the control law *)

(** The line feed that ends the diagnostics. *)
Definition newline : string := String (Ascii.ascii_of_nat 10) EmptyString.

Section Controller.

Variable h : Host.

(** [std::to_string(float)] and [std::stof] of the C++ library; [stof]
    may throw. *)
Variable to_string : F32.float -> string.
Variable stof : string -> res F32.float.

Variable b : Bindings.

(** [m_motors[n]] for an index already checked to be within 0..3. *)
Definition motor (n : Z) : Z := nth (Z.to_nat n) (m_motors b) (-1).

(** [Quadcopter::setMotorParticleVelocity(n, v)]. *)
Definition setMotorParticleVelocity (n : Z) (v : F32.float) : Tick unit :=
  if (n <? 0) || (n >? 3) then mret tt
  else
    let script := simGetScriptAssociatedWithObject h (motor n) in
    if script =? -1 then mret tt
    else emit (SetScriptSimulationParameter script "particleVelocity"
                 (to_string v)).

(** [Quadcopter::getMotorParticleVelocity(n) const]: the value returned
    and what is printed on [stderr]. *)
Definition getMotorParticleVelocity (n : Z) : res F32.float * list event :=
  if (n <? 0) || (n >? 3) then (Ret (F32.lit 0 1), [])
  else
    let result := F32.lit 0 1 in
    let script := simGetScriptAssociatedWithObject h (motor n) in
    if script =? -1 then
      (Ret (F32.lit 0 1), [Stderr ("getting motor script failed" +:+ newline)])
    else
      match simGetScriptSimulationParameter h script "particleVelocity" with
      | Some s => (stof s, [])
      | None => (Ret result, [Stderr ("getting motor velocity failed" +:+ newline)])
      end.

Definition pParam : F32.float := F32.lit 1 1.
Definition iParam : F32.float := F32.lit 0 1.
Definition dParam : F32.float := F32.lit 0 1.
Definition vParam : F32.float := F32.neg (F32.lit 2 1).

(** Lines 293-304, "Vertical control": the value of [thrust]. *)
Definition verticalControl : Tick F32.float :=
  let d := m_body b in
  targetPos ← CHECK 296 "simGetObjectPosition(m_target, -1, targetPos)"
                (simGetObjectPosition h (m_target b) (-1));
  pos ← CHECK 297 "simGetObjectPosition(d, -1, pos)"
          (simGetObjectPosition h d (-1));
  vel ← CHECK 298 "simGetObjectVelocity(m_obj, vel, NULL)"
          (simGetObjectVelocity h (m_obj b));
  let error := (targetPos 2%nat - pos 2%nat)%f32 in
  cumul ← gets m_cumul;
  _ ← modify (set_m_cumul (cumul + error)%f32);
  let pv := (pParam * error)%f32 in
  cumul ← gets m_cumul;
  lastE ← gets m_lastE;
  let thrust := (F32.lit 5335 1000 + pv + iParam * cumul
                 + dParam * (error - lastE) + vel 2%nat * vParam)%f32 in
  _ ← modify (set_m_lastE error);
  mret thrust.

(** Lines 306-328, "Horizontal control": [alphaCorr] and [betaCorr]. *)
Definition horizontalControl : Tick (F32.float * F32.float) :=
  let d := m_body b in
  let vx := floats_of [F32.lit 1 1; F32.lit 0 1; F32.lit 0 1] in
  let vy := floats_of [F32.lit 0 1; F32.lit 1 1; F32.lit 0 1] in
  sp ← CHECK 312 "simGetObjectPosition(m_target, d, sp)"
         (simGetObjectPosition h (m_target b) d);
  m ← CHECK 313 "simGetObjectMatrix(d, -1, m)"
        (simGetObjectMatrix h d (-1));
  vx ← CHECK 314 "simTransformVector(m, vx)" (simTransformVector h m vx);
  vy ← CHECK 315 "simTransformVector(m, vy)" (simTransformVector h m vy);
  pAlphaE ← gets m_pAlphaE;
  pBetaE ← gets m_pBetaE;
  let alphaE := (vy 2%nat - m 11%nat)%f32 in
  let alphaCorr :=
    (F32.lit 25 100 * alphaE + F32.lit 21 10 * (alphaE - pAlphaE))%f32 in
  let betaE := (vx 2%nat - m 11%nat)%f32 in
  let betaCorr :=
    (- F32.lit 25 100 * betaE - F32.lit 21 10 * (betaE - pBetaE))%f32 in
  _ ← modify (set_m_pAlphaE alphaE);
  _ ← modify (set_m_pBetaE betaE);
  psp0 ← gets m_psp0;
  psp1 ← gets m_psp1;
  let alphaCorr :=
    (alphaCorr + sp 1%nat * F32.lit 5 1000
     + F32.lit 1 1 * (sp 1%nat - psp1))%f32 in
  let betaCorr :=
    (betaCorr - sp 0%nat * F32.lit 5 1000
     - F32.lit 1 1 * (sp 0%nat - psp0))%f32 in
  _ ← modify (set_m_psp0 (sp 0%nat));
  _ ← modify (set_m_psp1 (sp 1%nat));
  mret (alphaCorr, betaCorr).

(** Lines 330-334, "Rotational control": [rotCorr]. *)
Definition rotationalControl : Tick F32.float :=
  let d := m_body b in
  euler ← CHECK 332 "simGetObjectOrientation(d, m_target, euler)"
            (simGetObjectOrientation h d (m_target b));
  prevEuler ← gets m_prevEuler;
  let rotCorr :=
    (euler 2%nat * F32.lit 1 10
     + F32.lit 2 1 * (euler 2%nat - prevEuler))%f32 in
  _ ← modify (set_m_prevEuler (euler 2%nat));
  mret rotCorr.

(** Lines 336-340: the four entries of [motorVel]. *)
Definition motorVel (thrust alphaCorr betaCorr rotCorr : F32.float)
  : list F32.float :=
  [ (thrust * (F32.lit 1 1 - alphaCorr + betaCorr + rotCorr))%f32;
    (thrust * (F32.lit 1 1 - alphaCorr - betaCorr - rotCorr))%f32;
    (thrust * (F32.lit 1 1 + alphaCorr - betaCorr + rotCorr))%f32;
    (thrust * (F32.lit 1 1 + alphaCorr + betaCorr - rotCorr))%f32 ].

(** [Quadcopter::pidControl()]. *)
Definition pidControl : Tick unit :=
  thrust ← verticalControl;
  '(alphaCorr, betaCorr) ← horizontalControl;
  rotCorr ← rotationalControl;
  let motorVel := floats_of (motorVel thrust alphaCorr betaCorr rotCorr) in
  _ ← setMotorParticleVelocity 0 (motorVel 0%nat);
  _ ← setMotorParticleVelocity 1 (motorVel 1%nat);
  _ ← setMotorParticleVelocity 2 (motorVel 2%nat);
  setMotorParticleVelocity 3 (motorVel 3%nat).

(** [Quadcopter::simulationStepped()]; the image dump is compiled out. *)
Definition simulationStepped : Tick unit := pidControl.

End Controller.

(** ** Finite object trees *)

(** A finite tree of objects: the handle of an object and its children in
    the order in which the host enumerates them. *)
Inductive tree : Type :=
| Node (obj : Z) (children : list tree).

Definition root (t : tree) : Z := match t with Node obj _ => obj end.
Definition kids (t : tree) : list tree := match t with Node _ ks => ks end.

Fixpoint size (t : tree) : nat :=
  match t with Node _ ks => S (list_sum (map size ks)) end.

Fixpoint height (t : tree) : nat :=
  match t with Node _ ks => S (list_max (map height ks)) end.

(** The objects at depth [d] of a forest, left to right. *)
Fixpoint level (d : nat) (ts : list tree) : list Z :=
  match d with
  | O => map root ts
  | S d' => level d' (flat_map kids ts)
  end.

(** Breadth-first (level) order as the specification words it: level 0,
    then level 1, and so on, each level left to right. *)
Definition bfs_forest (ts : list tree) : list Z :=
  flat_map (fun d => level d ts) (seq 0 (list_max (map height ts))).

Definition bfs_order (t : tree) : list Z := bfs_forest [t].

(** The host shows exactly the tree [t]: no handle is -1, child [i] of an
    object is the root of its [i]-th subtree, and the enumeration ends
    with -1 right after the last child. *)
Fixpoint representsb (h : Host) (t : tree) : bool :=
  match t with
  | Node obj ks =>
      negb (obj =? -1)
      && forallb (fun i => simGetObjectChild h obj (Z.of_nat i)
                           =? nth i (map root ks) (-1))
           (seq 0 (S (length ks)))
      && forallb (representsb h) ks
  end.

(** The membership test on [obj] returns [true]. *)
Definition carries (h : Host) (field obj : Z) : bool :=
  match hasCustomDataField h obj field with
  | Ret true => true
  | _ => false
  end.

(** The membership test on [obj] returns: its custom data decodes. *)
Definition decodes (h : Host) (field obj : Z) : bool :=
  match hasCustomDataField h obj field with
  | Ret _ => true
  | _ => false
  end.

(** Every object of the tree, in no particular order. *)
Fixpoint objects (t : tree) : list Z :=
  match t with Node obj ks => obj :: flat_map objects ks end.

(** What the search returns when the objects are tested in the order [l]
    and the first test that is not [false] ends it. *)
Fixpoint first_hit (h : Host) (field : Z) (l : list Z) : res Z :=
  match l with
  | [] => Ret (-1)
  | obj :: l' =>
      match hasCustomDataField h obj field with
      | Ret true => Ret obj
      | Ret false => first_hit h field l'
      | Throw e => Throw e
      | Undefined => Undefined
      | OutOfFuel => OutOfFuel
      end
  end.

(** The subtrees at depth [d] of a forest, left to right, and the subtrees
    in breadth-first order: [level] and [bfs_forest] with every object
    together with what hangs below it. *)
Fixpoint level_trees (d : nat) (ts : list tree) : list tree :=
  match d with
  | O => ts
  | S d' => level_trees d' (flat_map kids ts)
  end.

Definition bfs_trees (ts : list tree) : list tree :=
  flat_map (fun d => level_trees d ts) (seq 0 (list_max (map height ts))).

(** The initial part of [l] on whose objects the membership test returns
    [false]: it ends before the first object that carries the field or
    whose test does not return. *)
Fixpoint tested_false (h : Host) (field : Z) (l : list tree) : list tree :=
  match l with
  | [] => []
  | v :: l' =>
      match hasCustomDataField h (root v) field with
      | Ret false => v :: tested_false h field l'
      | _ => []
      end
  end.

(** The root and, in order, the children of the objects in [tested]. *)
Definition enqueued (t : tree) (tested : list tree) : list Z :=
  root t :: map root (flat_map kids tested).

(** ** Concrete hosts used in examples *)

(** A scene given by the custom data and the children of its objects;
    every other API call fails. *)
Definition scene (data : Z -> byte_vector) (children : Z -> list Z) : Host :=
  {| simGetObjectCustomDataLength := fun obj _ => Z.of_nat (length (data obj));
     simGetObjectCustomData := fun obj _ => data obj;
     simGetObjectChild := fun obj i =>
       if i <? 0 then -1 else nth (Z.to_nat i) (children obj) (-1);
     simGetScriptAssociatedWithObject := fun _ => -1;
     simGetScriptSimulationParameter := fun _ _ => None;
     simGetObjectPosition := fun _ _ => None;
     simGetObjectVelocity := fun _ => None;
     simGetObjectMatrix := fun _ _ => None;
     simTransformVector := fun _ _ => None;
     simGetObjectOrientation := fun _ _ => None |}.

(** One custom-data entry [(id, payload)] on the wire, for ids and lengths
    below 256. *)
Definition entry (id : Byte.byte) (len : Byte.byte) (payload : byte_vector)
  : byte_vector :=
  [id; Byte.x00; Byte.x00; Byte.x00; len; Byte.x00; Byte.x00; Byte.x00]
    ++ payload.

(** Object 1 alone, its custom data cut after one byte. *)
Definition truncated_scene : Host :=
  scene (fun obj => if obj =? 1 then [Byte.x07] else []) (fun _ => []).

(** An entry that declares five payload bytes and is followed by one. *)
Definition overlong_buffer : byte_vector :=
  entry Byte.x00 Byte.x05 [Byte.x01].

(** A root with two children that have two children each.  Object 4
    (depth 2, leftmost) and object 3 (depth 1) carry the body tag; object
    2 carries another tag. *)
Definition example_tree : tree :=
  Node 1 [Node 2 [Node 4 []; Node 5 []]; Node 3 [Node 6 []; Node 7 []]].

Definition example_scene : Host :=
  scene
    (fun obj =>
       if obj =? 3 then entry Byte.x07 Byte.x00 []
       else if obj =? 4 then entry Byte.x07 Byte.x01 [Byte.xff]
       else if obj =? 2 then entry Byte.x01 Byte.x00 []
       else [])
    (fun obj =>
       if obj =? 1 then [2; 3]
       else if obj =? 2 then [4; 5]
       else if obj =? 3 then [6; 7]
       else []).

(** A root with three children: object 2 carries the tag of motor 0, the
    custom data of object 3 is cut after one byte, object 4 carries the
    body tag. *)
Definition malformed_tree : tree :=
  Node 1 [Node 2 []; Node 3 []; Node 4 []].

Definition malformed_scene : Host :=
  scene
    (fun obj =>
       if obj =? 2 then entry Byte.x01 Byte.x00 []
       else if obj =? 3 then [Byte.x07]
       else if obj =? 4 then entry Byte.x07 Byte.x00 []
       else [])
    (fun obj => if obj =? 1 then [2; 3; 4] else []).

(** A quadcopter whose four motors are the objects 11 to 14. *)
Definition example_bindings : Bindings :=
  {| m_obj := 1; m_uniqueID := 100; m_body := 2; m_target := 3;
     m_cameraDown := -1; m_cameraFront := -1;
     m_motors := [11; 12; 13; 14] |}.

(** The controller state right after [simulationStarted]. *)
Definition zero_state : ControllerState :=
  {| m_last_save_time := F32.zero; m_cumul := F32.zero; m_lastE := F32.zero;
     m_pAlphaE := F32.zero; m_pBetaE := F32.zero; m_psp0 := F32.zero;
     m_psp1 := F32.zero; m_prevEuler := F32.zero |}.

(** A stand-in for [std::to_string] and [std::stof] in examples: the text
    is irrelevant to what is shown there. *)
Definition example_to_string (v : F32.float) : string :=
  match v with
  | S754_zero _ => "0.000000"
  | S754_finite false 13285458 (-21) => "6.335000"
  | _ => "other"
  end.

Definition example_stof (s : string) : res F32.float :=
  if String.eqb s "0.000000" then Ret F32.zero
  else Throw (runtime_error "stof").

(** [simTransformVector] as a 3x4 row-major matrix applied to a vector:
    rotation part times the vector plus the translation column. *)
Definition transform (m v : floats) : floats :=
  floats_of
    [ (m 0%nat * v 0%nat + m 1%nat * v 1%nat + m 2%nat * v 2%nat + m 3%nat)%f32;
      (m 4%nat * v 0%nat + m 5%nat * v 1%nat + m 6%nat * v 2%nat + m 7%nat)%f32;
      (m 8%nat * v 0%nat + m 9%nat * v 1%nat + m 10%nat * v 2%nat
       + m 11%nat)%f32 ].

(** The scenario of the specification: the quadcopter (object 1, body 2)
    hovers level at height 1 right under its target (object 3) at height
    2, yaw aligned; the motors 11..14 carry the scripts 21..24.  The
    vertical velocities reported for the quadcopter object and for its body
    are [objVelZ] and [bodyVelZ]. *)
Definition hover_scene (objVelZ bodyVelZ : F32.float) : Host :=
  let f0 := F32.lit 0 1 in
  let f1 := F32.lit 1 1 in
  {| simGetObjectCustomDataLength := fun _ _ => 0;
     simGetObjectCustomData := fun _ _ => [];
     simGetObjectChild := fun _ _ => -1;
     simGetScriptAssociatedWithObject := fun obj =>
       if (11 <=? obj) && (obj <=? 14) then obj + 10 else -1;
     simGetScriptSimulationParameter := fun _ _ => None;
     simGetObjectPosition := fun obj rel =>
       if (obj =? 3) && (rel =? -1) then Some (floats_of [f0; f0; F32.lit 2 1])
       else if (obj =? 2) && (rel =? -1) then Some (floats_of [f0; f0; f1])
       else if (obj =? 3) && (rel =? 2) then Some (floats_of [f0; f0; f1])
       else None;
     simGetObjectVelocity := fun obj =>
       if obj =? 1 then Some (floats_of [f0; f0; objVelZ])
       else if obj =? 2 then Some (floats_of [f0; f0; bodyVelZ])
       else None;
     simGetObjectMatrix := fun obj rel =>
       if (obj =? 2) && (rel =? -1)
       then Some (floats_of [f1; f0; f0; f0;  f0; f1; f0; f0;  f0; f0; f1; f1])
       else None;
     simTransformVector := fun m v => Some (transform m v);
     simGetObjectOrientation := fun obj rel =>
       if (obj =? 2) && (rel =? 3) then Some (floats_of [f0; f0; f0])
       else None |}.

(** Level hover, nothing moves. *)
Definition level_hover : Host := hover_scene F32.zero F32.zero.

(** The body object reports a climb at 1.0 while the quadcopter object
    reports no vertical velocity. *)
Definition rising_body : Host := hover_scene (F32.lit 0 1) (F32.lit 1 1).


(** The vertical-axis law with the vertical velocity of the body object,
    as the specification words it; [None] when a read fails. *)
Definition specified_thrust (h : Host) (b : Bindings) (s : ControllerState)
  : option F32.float :=
  match simGetObjectPosition h (m_target b) (-1),
        simGetObjectPosition h (m_body b) (-1),
        simGetObjectVelocity h (m_body b) with
  | Some targetPos, Some pos, Some bodyVel =>
      let error := (targetPos 2%nat - pos 2%nat)%f32 in
      let integral := (m_cumul s + error)%f32 in
      Some (F32.lit 5335 1000 + F32.lit 1 1 * error + F32.lit 0 1 * integral
            + F32.lit 0 1 * (error - m_lastE s)
            + - F32.lit 2 1 * bodyVel 2%nat)%f32
  | _, _, _ => None
  end.

(** Every read of [pidControl] succeeds. *)
Definition ok {A : Type} (r : option A) : bool :=
  match r with Some _ => true | None => false end.

Definition vertical_reads (h : Host) (b : Bindings) : bool :=
  ok (simGetObjectPosition h (m_target b) (-1))
  && ok (simGetObjectPosition h (m_body b) (-1))
  && ok (simGetObjectVelocity h (m_obj b)).

Definition horizontal_reads (h : Host) (b : Bindings) : bool :=
  ok (simGetObjectPosition h (m_target b) (m_body b))
  && match simGetObjectMatrix h (m_body b) (-1) with
     | Some m =>
         ok (simTransformVector h m
               (floats_of [F32.lit 1 1; F32.lit 0 1; F32.lit 0 1]))
         && ok (simTransformVector h m
                  (floats_of [F32.lit 0 1; F32.lit 1 1; F32.lit 0 1]))
     | None => false
     end.

Definition rotational_reads (h : Host) (b : Bindings) : bool :=
  ok (simGetObjectOrientation h (m_body b) (m_target b)).

Definition reads_succeed (h : Host) (b : Bindings) : bool :=
  vertical_reads h b && horizontal_reads h b && rotational_reads h b.

(** ** Wire format of the custom data *)

(** The byte with value [z mod 256]. *)
Definition byte_of_Z (z : Z) : Byte.byte :=
  match Byte.of_N (Z.to_N (z mod 256)) with
  | Some b => b
  | None => Byte.x00
  end.

(** The four bytes that [parseUint32] reads as [v]: least significant
    first. *)
Definition le32 (v : Z) : byte_vector :=
  [byte_of_Z v; byte_of_Z (v / 256); byte_of_Z (v / 65536);
   byte_of_Z (v / 16777216)].

(** One entry [field_id, field_len, payload] as the comment at the head of
    the source describes the buffer, and a sequence of entries back to
    back. *)
Definition wire_entry (e : Z * byte_vector) : byte_vector :=
  le32 (fst e) ++ le32 (Z.of_nat (length (snd e))) ++ snd e.

Definition wire (es : list (Z * byte_vector)) : byte_vector :=
  flat_map wire_entry es.

(** An id and a payload length that fit 32 bits. *)
Definition fits32 (e : Z * byte_vector) : Prop :=
  0 <= fst e < 2 ^ 32 /\ Z.of_nat (length (snd e)) < 2 ^ 32.

(** The entries put into a map in order, a later entry replacing an
    earlier one with the same id ([result[id] = ...]). *)
Definition decoded_from (m : CustomData) (es : list (Z * byte_vector))
  : CustomData :=
  foldl (fun acc e => <[fst e := snd e]> acc) m es.

Definition decoded (es : list (Z * byte_vector)) : CustomData :=
  decoded_from ∅ es.

(** ** Construction *)

(** [%-12s]: the text, then spaces up to a width of twelve. *)
Definition pad12 (s : string) : string :=
  s +:+ string_of_list_ascii
          (repeat (Ascii.ascii_of_nat 32) (12 - String.length s)%nat).

Section Assembly.

Variable h : Host.

(** Two more calls of the V-REP API, used by the constructor only:
    [simGetObjectUniqueIdentifier] ([None] when it returns -1 and leaves
    its output untouched) and [simGetObjectName] ([None] for NULL). *)
Variable simGetObjectUniqueIdentifier : Z -> option Z.
Variable simGetObjectName : Z -> option string.

(** [printObjWithLabel(name, obj)]: one event per [fprintf].  Printing a
    NULL name with [%s] is undefined. *)
Definition printObjWithLabel (name : string) (obj : Z) : res (list event) :=
  let head := Stderr (pad12 name +:+ " id " +:+ pretty obj) in
  if obj =? -1 then Ret [head; Stderr newline]
  else
    match simGetObjectName obj with
    | Some objName =>
        Ret [head; Stderr (" name '" +:+ objName +:+ "'"); Stderr newline]
    | None => Undefined
    end.

(** [Quadcopter::Quadcopter(obj)]: the handles it binds and what it prints.
    The controller memory is not initialised here.  Every search gets the
    same fuel.  [m_uniqueID] is read by the first [fprintf]; when the
    identifier call failed that read is of an uninitialised member. *)
Definition Quadcopter_ctor (fuel : nat) (obj : Z)
  : res (Bindings * list event) :=
  let uid := simGetObjectUniqueIdentifier obj in
  body ← searchCustomDataField h fuel obj FIELD_BODY;
  target ← searchCustomDataField h fuel obj FIELD_TARGET;
  cameraDown ← searchCustomDataField h fuel obj FIELD_CAMERA_DOWN;
  cameraFront ← searchCustomDataField h fuel obj FIELD_CAMERA_FRONT;
  motor0 ← searchCustomDataField h fuel obj FIELD_MOTOR_0;
  motor1 ← searchCustomDataField h fuel obj FIELD_MOTOR_1;
  motor2 ← searchCustomDataField h fuel obj FIELD_MOTOR_2;
  motor3 ← searchCustomDataField h fuel obj FIELD_MOTOR_3;
  match uid with
  | None => Undefined
  | Some uniqueID =>
      let found :=
        Stderr ("--- Found Quadcopter " +:+ pretty uniqueID +:+ ":"
                +:+ newline) in
      l1 ← printObjWithLabel "Quadcopter:" obj;
      l2 ← printObjWithLabel "Body:" body;
      l3 ← printObjWithLabel "Target:" target;
      l4 ← printObjWithLabel "Motor #1:" motor0;
      l5 ← printObjWithLabel "Motor #2:" motor1;
      l6 ← printObjWithLabel "Motor #3:" motor2;
      l7 ← printObjWithLabel "Motor #4:" motor3;
      l8 ← printObjWithLabel "Floor Cam:" cameraDown;
      l9 ← printObjWithLabel "Front Cam:" cameraFront;
      Ret ({| m_obj := obj; m_uniqueID := uniqueID; m_body := body;
              m_target := target; m_cameraDown := cameraDown;
              m_cameraFront := cameraFront;
              m_motors := [motor0; motor1; motor2; motor3] |},
           found :: l1 ++ l2 ++ l3 ++ l4 ++ l5 ++ l6 ++ l7 ++ l8 ++ l9)
  end.

End Assembly.

(** The first object in breadth-first order that carries the field, -1
    when there is none. *)
Definition first_carrier (h : Host) (t : tree) (field : Z) : Z :=
  match find (carries h field) (bfs_order t) with
  | Some obj => obj
  | None => -1
  end.

(** A binding is -1 or an object that carries the field of its role. *)
Definition bound (h : Host) (o field : Z) : Prop :=
  o = -1 \/ hasCustomDataField h o field = Ret true.

(** The call of [simSetScriptSimulationParameter] that commands motor [n]
    with [v]; none when the motor has no script. *)
Definition motor_write (h : Host) (to_string : F32.float -> string)
    (b : Bindings) (n : Z) (v : F32.float) : list event :=
  let script := simGetScriptAssociatedWithObject h (motor b n) in
  if script =? -1 then []
  else [SetScriptSimulationParameter script "particleVelocity" (to_string v)].

(** The quadcopter of the examples with its third motor not found. *)
Definition three_motor_bindings : Bindings :=
  {| m_obj := 1; m_uniqueID := 100; m_body := 2; m_target := 3;
     m_cameraDown := -1; m_cameraFront := -1;
     m_motors := [11; 12; -1; 14] |}.

(** Level hover, but the target position read in the world frame has a
    NaN height. *)
Definition nan_target_scene : Host :=
  {| simGetObjectCustomDataLength := simGetObjectCustomDataLength level_hover;
     simGetObjectCustomData := simGetObjectCustomData level_hover;
     simGetObjectChild := simGetObjectChild level_hover;
     simGetScriptAssociatedWithObject :=
       simGetScriptAssociatedWithObject level_hover;
     simGetScriptSimulationParameter :=
       simGetScriptSimulationParameter level_hover;
     simGetObjectPosition := fun obj rel =>
       if (obj =? 3) && (rel =? -1)
       then Some (floats_of [F32.zero; F32.zero; S754_nan])
       else simGetObjectPosition level_hover obj rel;
     simGetObjectVelocity := simGetObjectVelocity level_hover;
     simGetObjectMatrix := simGetObjectMatrix level_hover;
     simTransformVector := simTransformVector level_hover;
     simGetObjectOrientation := simGetObjectOrientation level_hover |}.

(** The controller memory that one tick on [nan_target_scene] leaves
    behind when it starts from [zero_state]. *)
Definition nan_memory : ControllerState :=
  {| m_last_save_time := F32.zero; m_cumul := S754_nan; m_lastE := S754_nan;
     m_pAlphaE := F32.zero; m_pBetaE := F32.zero; m_psp0 := F32.zero;
     m_psp1 := F32.zero; m_prevEuler := F32.zero |}.

(** ** More hosts for examples *)

(** Object 1 is its own only child and carries nothing. *)
Definition self_loop_scene : Host :=
  scene (fun _ => []) (fun obj => if obj =? 1 then [1] else []).

(** The example tree with the roles of a quadcopter: 1 is the quadcopter,
    2 the body, 3 the target, 4 to 7 the motors. *)
Definition quadcopter_scene : Host :=
  scene
    (fun obj =>
       if obj =? 1 then entry Byte.x00 Byte.x00 []
       else if obj =? 2 then entry Byte.x07 Byte.x00 []
       else if obj =? 3 then entry Byte.x08 Byte.x00 []
       else if obj =? 4 then entry Byte.x01 Byte.x00 []
       else if obj =? 5 then entry Byte.x02 Byte.x00 []
       else if obj =? 6 then entry Byte.x03 Byte.x00 []
       else if obj =? 7 then entry Byte.x04 Byte.x00 []
       else [])
    (fun obj =>
       if obj =? 1 then [2; 3]
       else if obj =? 2 then [4; 5]
       else if obj =? 3 then [6; 7]
       else []).

Definition example_uid (obj : Z) : option Z := Some (obj + 1000).

Definition example_name (obj : Z) : option string :=
  Some ("object" +:+ pretty obj).

(** Level hover where every script parameter reads as the text [t]. *)
Definition parameter_scene (t : string) : Host :=
  {| simGetObjectCustomDataLength := simGetObjectCustomDataLength level_hover;
     simGetObjectCustomData := simGetObjectCustomData level_hover;
     simGetObjectChild := simGetObjectChild level_hover;
     simGetScriptAssociatedWithObject :=
       simGetScriptAssociatedWithObject level_hover;
     simGetScriptSimulationParameter := fun _ _ => Some t;
     simGetObjectPosition := simGetObjectPosition level_hover;
     simGetObjectVelocity := simGetObjectVelocity level_hover;
     simGetObjectMatrix := simGetObjectMatrix level_hover;
     simTransformVector := simTransformVector level_hover;
     simGetObjectOrientation := simGetObjectOrientation level_hover |}.

(** * Properties *)

(** ** Codec *)

Lemma parseUint32_short (p : byte_vector) :
  (length p < 4)%nat -> parseUint32 p = Throw format_error.
Proof.
  destruct p as [|b0 [|b1 [|b2 [|b3 p']]]]; simpl; intros Hlen;
    try reflexivity; lia.
Qed.

Lemma parseUint32_long (p : byte_vector) :
  (4 <= length p)%nat -> exists v, parseUint32 p = Ret (v, drop 4 p).
Proof.
  destruct p as [|b0 [|b1 [|b2 [|b3 p']]]]; simpl; intros Hlen; try lia.
  eexists; reflexivity.
Qed.

Lemma parseUint32_cases (p : byte_vector) :
  ((length p < 4)%nat /\ parseUint32 p = Throw format_error)
  \/ ((4 <= length p)%nat /\ exists v, parseUint32 p = Ret (v, drop 4 p)).
Proof.
  destruct (Nat.lt_ge_cases (length p) 4) as [Hlt|Hge].
  - left. split; [assumption | apply parseUint32_short; assumption].
  - right. split; [assumption | apply parseUint32_long; assumption].
Qed.

(** Enough fuel: the loop always ends when it is given more fuel than the
    buffer has bytes. *)
Lemma parseLoop_total (fuel : nat) :
  forall (p : byte_vector) (result : CustomData),
    (length p < fuel)%nat -> parseLoop fuel p result <> OutOfFuel.
Proof.
  induction fuel as [|fuel IH]; intros p result Hlen; [lia|].
  destruct p as [|b0 p0]; [discriminate|].
  cbn [parseLoop].
  destruct (parseUint32_cases (b0 :: p0)) as [[_ ->]|[Hl1 [id ->]]];
    [discriminate|].
  cbn [mbind res_bind].
  destruct (parseUint32_cases (drop 4 (b0 :: p0))) as [[_ ->]|[Hl2 [len ->]]];
    [discriminate|].
  cbn [mbind res_bind].
  destruct (Z.of_nat (length (drop 4 (drop 4 (b0 :: p0)))) <? len);
    [discriminate|].
  apply IH. rewrite !length_drop in *. lia.
Qed.

Lemma parseCustomData_total (buf : byte_vector) :
  parseCustomData buf <> OutOfFuel.
Proof. apply parseLoop_total. lia. Qed.

Example parse_one_entry :
  parseCustomData (entry Byte.x07 Byte.x01 [Byte.xff])
  = Ret (<[7 := [Byte.xff]]> ∅).
Proof. reflexivity. Qed.

Example parse_little_endian :
  parseUint32 [Byte.x78; Byte.x56; Byte.x34; Byte.x12; Byte.xaa]
  = Ret (305419896, [Byte.xaa]).
Proof. reflexivity. Qed.

(** A repeated id keeps the later payload. *)
Example parse_repeated_id :
  parseCustomData (entry Byte.x07 Byte.x01 [Byte.x01]
                     ++ entry Byte.x07 Byte.x01 [Byte.x02])
  = Ret (<[7 := [Byte.x02]]> ∅).
Proof. vm_compute. reflexivity. Qed.

Example parse_cut_in_length :
  parseCustomData [Byte.x07; Byte.x00; Byte.x00; Byte.x00; Byte.x01]
  = Throw format_error.
Proof. reflexivity. Qed.

(** Where a 32-bit integer is expected and one to three bytes remain, the
    decoder throws the format error, for the id as for the length. *)
Lemma parseLoop_truncated_integer (fuel : nat) (p : byte_vector)
    (result : CustomData) :
  (0 < length p < 4)%nat \/ (4 <= length p < 8)%nat ->
  parseLoop (S fuel) p result = Throw format_error.
Proof.
  intros Hlen. cbn [parseLoop].
  destruct p as [|b0 p0]; [simpl in Hlen; lia|].
  destruct (parseUint32_cases (b0 :: p0)) as [[_ ->]|[Hl1 [id ->]]];
    [reflexivity|].
  cbn [mbind res_bind].
  rewrite parseUint32_short; [reflexivity|].
  rewrite length_drop. lia.
Qed.

(** A declared length larger than the rest of the buffer is not rejected:
    the payload copy runs past the end. *)
Lemma parseLoop_overlong (fuel : nat) (p : byte_vector) (result : CustomData)
    (id len : Z) (p2 : byte_vector) :
  parseUint32 p = Ret (id, drop 4 p) ->
  parseUint32 (drop 4 p) = Ret (len, p2) ->
  Z.of_nat (length p2) < len ->
  parseLoop (S fuel) p result = Undefined.
Proof.
  intros E1 E2 Hlen. cbn [parseLoop].
  destruct p as [|b0 p0]; [discriminate|].
  rewrite E1. cbn [mbind res_bind]. rewrite E2. cbn [mbind res_bind].
  destruct (Z.ltb_spec (Z.of_nat (length p2)) len); [reflexivity | lia].
Qed.

(** C2, evaluation at the failing input: for a buffer shorter than its
    declared payload length the decoder does not report the format error;
    it copies the payload from beyond the end of the buffer. *)
Theorem parseCustomData_overlong_payload :
  length overlong_buffer = 9%nat
  /\ parseUint32 (drop 4 overlong_buffer) = Ret (5, [Byte.x01])
  /\ parseCustomData overlong_buffer = Undefined
  /\ parseCustomData overlong_buffer <> Throw format_error.
Proof.
  repeat split; try reflexivity. discriminate.
Qed.

(** ** Membership test *)

Lemma hasCustomDataField_no_data (h : Host) (obj field : Z) :
  simGetObjectCustomDataLength h obj DATA_ID <= 0 ->
  hasCustomDataField h obj field = Ret false.
Proof.
  intros Hsize. unfold hasCustomDataField.
  destruct (Z.leb_spec (simGetObjectCustomDataLength h obj DATA_ID) 0);
    [reflexivity | lia].
Qed.

Lemma hasCustomDataField_throws (h : Host) (obj field : Z) (e : exn) :
  0 < simGetObjectCustomDataLength h obj DATA_ID ->
  parseCustomData
    (customDataBuffer h obj (simGetObjectCustomDataLength h obj DATA_ID))
  = Throw e ->
  hasCustomDataField h obj field = Throw e.
Proof.
  intros Hsize Hparse. unfold hasCustomDataField.
  destruct (Z.leb_spec (simGetObjectCustomDataLength h obj DATA_ID) 0);
    [lia|].
  rewrite Hparse. reflexivity.
Qed.

(** C3, as stated, fails: on an object whose custom data is cut after one
    byte the membership test does not return [false] and the search from
    that object does not return -1; the format error leaves both. *)
Lemma truncated_data_is_not_no_match :
  hasCustomDataField truncated_scene 1 FIELD_BODY <> Ret false
  /\ searchCustomDataField truncated_scene 2 1 FIELD_BODY <> Ret (-1)
  /\ searchCustomDataField truncated_scene 2 1 FIELD_BODY = Throw format_error.
Proof.
  repeat split; vm_compute; congruence.
Qed.

(** ** Lifecycle and actuators *)

(** C7: whatever the controller state was, after [simulationStarted] every
    field of it (integral, previous altitude error, previous alpha and beta
    errors, previous setpoint components, previous yaw error, last-save
    time) is zero; the bindings are kept. *)
Theorem simulationStarted_resets (q : Quadcopter) :
  state (simulationStarted q) = zero_state
  /\ m_cumul (state (simulationStarted q)) = F32.zero
  /\ m_lastE (state (simulationStarted q)) = F32.zero
  /\ m_pAlphaE (state (simulationStarted q)) = F32.zero
  /\ m_pBetaE (state (simulationStarted q)) = F32.zero
  /\ m_psp0 (state (simulationStarted q)) = F32.zero
  /\ m_psp1 (state (simulationStarted q)) = F32.zero
  /\ m_prevEuler (state (simulationStarted q)) = F32.zero
  /\ m_last_save_time (state (simulationStarted q)) = F32.zero
  /\ bindings (simulationStarted q) = bindings q.
Proof.
  repeat split; reflexivity.
Qed.

(** C8: for an index outside 0..3 (so for -1 and 4) and any velocity,
    [setMotorParticleVelocity] returns at once: no call of
    [simSetScriptSimulationParameter], nothing printed, state unchanged. *)
Theorem setMotorParticleVelocity_out_of_range
    (h : Host) (to_string : F32.float -> string) (b : Bindings)
    (n : Z) (v : F32.float) (s : ControllerState) :
  n < 0 \/ 3 < n ->
  setMotorParticleVelocity h to_string b n v s = (s, [], Some tt).
Proof.
  intros Hn. unfold setMotorParticleVelocity.
  destruct (Z.ltb_spec n 0) as [Hlt|Hge]; [reflexivity|].
  destruct (Z.gtb_spec n 3) as [Hgt|Hle]; [reflexivity | lia].
Qed.

Lemma setMotorParticleVelocity_out_of_range_witness :
  setMotorParticleVelocity truncated_scene example_to_string example_bindings
    (-1) (F32.lit 5335 1000) zero_state = (zero_state, [], Some tt)
  /\ setMotorParticleVelocity truncated_scene example_to_string
       example_bindings 4 (F32.lit 5335 1000) zero_state
     = (zero_state, [], Some tt).
Proof.
  split; apply setMotorParticleVelocity_out_of_range; lia.
Defined.

(** C9: [getMotorParticleVelocity] returns 0.0, and does not throw, for an
    index outside 0..3, for a motor without a script, and when the
    parameter cannot be read. *)
Theorem getMotorParticleVelocity_zero
    (h : Host) (stof : string -> res F32.float) (b : Bindings) (n : Z) :
  (n < 0 \/ 3 < n)
  \/ simGetScriptAssociatedWithObject h (motor b n) = -1
  \/ simGetScriptSimulationParameter h
       (simGetScriptAssociatedWithObject h (motor b n)) "particleVelocity"
     = None ->
  fst (getMotorParticleVelocity h stof b n) = Ret F32.zero.
Proof.
  intros Hcase. unfold getMotorParticleVelocity.
  destruct ((n <? 0) || (n >? 3)) eqn:Hrange; [reflexivity|].
  destruct Hcase as [Hn|[Hscript|Hparam]].
  - apply orb_false_iff in Hrange as [H0 H3].
    apply Z.ltb_ge in H0. rewrite Z.gtb_ltb in H3. apply Z.ltb_ge in H3. lia.
  - rewrite Hscript. reflexivity.
  - destruct (simGetScriptAssociatedWithObject h (motor b n) =? -1);
      [reflexivity|].
    rewrite Hparam. reflexivity.
Qed.

Lemma getMotorParticleVelocity_zero_witness :
  fst (getMotorParticleVelocity truncated_scene example_stof example_bindings 4)
  = Ret F32.zero
  /\ fst (getMotorParticleVelocity truncated_scene example_stof
            example_bindings 2)
     = Ret F32.zero
  /\ fst (getMotorParticleVelocity level_hover example_stof
            example_bindings 2)
     = Ret F32.zero.
Proof.
  split; [|split].
  - apply (getMotorParticleVelocity_zero truncated_scene example_stof
             example_bindings 4). left. lia.
  - apply (getMotorParticleVelocity_zero truncated_scene example_stof
             example_bindings 2). right. left. reflexivity.
  - apply (getMotorParticleVelocity_zero level_hover example_stof
             example_bindings 2). right. right. reflexivity.
Defined.

(** ** binary32 facts *)

Lemma F32_mul_comm (x y : F32.float) : (x * y = y * x)%f32.
Proof.
  unfold F32.mul, SFmul.
  destruct x as [sx|sx| |sx mx ex], y as [sy|sy| |sy my ey];
    try reflexivity; try (rewrite xorb_comm; reflexivity).
  rewrite xorb_comm, Pos.mul_comm, Z.add_comm. reflexivity.
Qed.

(** Adding a zero of either sign to a nonzero finite number changes
    nothing. *)
Lemma F32_add_zero_r (s : bool) (m : positive) (e : Z) (z : F32.float) :
  F32.is_zero z = true ->
  (S754_finite s m e + z)%f32 = S754_finite s m e.
Proof. destruct z; simpl; try discriminate. reflexivity. Qed.

Lemma F32_sub_zero_r (s : bool) (m : positive) (e : Z) (z : F32.float) :
  F32.is_zero z = true ->
  (S754_finite s m e - z)%f32 = S754_finite s m e.
Proof. destruct z; simpl; try discriminate. reflexivity. Qed.

(** [0.0f * x] is a zero whenever [x] is finite. *)
Lemma F32_zero_mul (x : F32.float) :
  F32.is_finite x = true -> F32.is_zero (F32.lit 0 1 * x)%f32 = true.
Proof. destruct x; simpl; try discriminate; reflexivity. Qed.

Example lit_5_335 : F32.lit 5335 1000 = S754_finite false 11188306 (-21).
Proof. reflexivity. Qed.

Example lit_6_335 : F32.lit 6335 1000 = S754_finite false 13285458 (-21).
Proof. reflexivity. Qed.

Example lit_1_0 : F32.lit 1 1 = S754_finite false 8388608 (-23).
Proof. reflexivity. Qed.

Example lit_0_0 : F32.lit 0 1 = F32.zero.
Proof. reflexivity. Qed.

(** ** Vertical axis *)

Arguments F32.add : simpl never.
Arguments F32.sub : simpl never.
Arguments F32.mul : simpl never.
Arguments F32.div : simpl never.
Arguments F32.neg : simpl never.
Arguments F32.lit : simpl never.

Ltac run_tick :=
  unfold mbind, Tick_bind, mret, Tick_ret, CHECK, gets, modify, emit;
  cbn beta iota.

Lemma verticalControl_ok (h : Host) (b : Bindings) (s : ControllerState)
    (targetPos pos vel : floats) :
  simGetObjectPosition h (m_target b) (-1) = Some targetPos ->
  simGetObjectPosition h (m_body b) (-1) = Some pos ->
  simGetObjectVelocity h (m_obj b) = Some vel ->
  let error := (targetPos 2%nat - pos 2%nat)%f32 in
  let integral := (m_cumul s + error)%f32 in
  verticalControl h b s
  = (set_m_lastE error (set_m_cumul integral s), [],
     Some (F32.lit 5335 1000 + pParam * error + iParam * integral
           + dParam * (error - m_lastE s) + vel 2%nat * vParam)%f32).
Proof.
  intros Htarget Hpos Hvel error integral.
  unfold verticalControl. run_tick.
  rewrite Htarget, Hpos, Hvel. reflexivity.
Qed.

(** C1, as stated, fails: in a scene where the body object moves up at 1.0
    while the quadcopter object reports no vertical velocity, the thrust
    computed is 6.335, not the 4.335 that the law gives with the velocity
    of the body. *)
Lemma thrust_not_from_body_velocity :
  snd (verticalControl rising_body example_bindings zero_state)
    = Some (F32.lit 6335 1000)
  /\ specified_thrust rising_body example_bindings zero_state
     = Some (F32.lit 4335 1000)
  /\ snd (verticalControl rising_body example_bindings zero_state)
     <> specified_thrust rising_body example_bindings zero_state.
Proof.
  vm_compute. repeat split; congruence.
Qed.

(** C1, amended: when the three reads of the vertical axis succeed, the
    error is targetZ - bodyZ (world frame), the integral is increased by
    the error, the previous error becomes the error, and
    thrust = 5.335 + 1.0*error + 0.0*integral + 0.0*(error - prevError)
             + (-2.0)*v
    where v is the vertical velocity of the quadcopter object [m_obj]
    itself, not of the body object. *)
Theorem verticalControl_thrust (h : Host) (b : Bindings) (s : ControllerState)
    (targetPos pos vel : floats) :
  simGetObjectPosition h (m_target b) (-1) = Some targetPos ->
  simGetObjectPosition h (m_body b) (-1) = Some pos ->
  simGetObjectVelocity h (m_obj b) = Some vel ->
  let error := (targetPos 2%nat - pos 2%nat)%f32 in
  let integral := (m_cumul s + error)%f32 in
  let thrust := (F32.lit 5335 1000 + F32.lit 1 1 * error
                 + F32.lit 0 1 * integral
                 + F32.lit 0 1 * (error - m_lastE s)
                 + - F32.lit 2 1 * vel 2%nat)%f32 in
  exists s',
    verticalControl h b s = (s', [], Some thrust)
    /\ m_cumul s' = integral
    /\ m_lastE s' = error
    /\ s' = set_m_lastE error (set_m_cumul integral s).
Proof.
  intros Htarget Hpos Hvel error integral thrust.
  exists (set_m_lastE error (set_m_cumul integral s)).
  split; [|repeat split].
  rewrite (verticalControl_ok h b s _ _ _ Htarget Hpos Hvel).
  subst thrust. rewrite (F32_mul_comm (- F32.lit 2 1)%f32). reflexivity.
Qed.

Lemma verticalControl_thrust_witness :
  exists s',
    verticalControl rising_body example_bindings zero_state
    = (s', [], Some (F32.lit 6335 1000))
    /\ m_cumul s' = F32.lit 1 1
    /\ m_lastE s' = F32.lit 1 1
    /\ s' = set_m_lastE (F32.lit 1 1) (set_m_cumul (F32.lit 1 1) zero_state).
Proof.
  exact (verticalControl_thrust rising_body example_bindings zero_state
           (floats_of [F32.lit 0 1; F32.lit 0 1; F32.lit 2 1])
           (floats_of [F32.lit 0 1; F32.lit 0 1; F32.lit 1 1])
           (floats_of [F32.lit 0 1; F32.lit 0 1; F32.lit 0 1])
           eq_refl eq_refl eq_refl).
Defined.

(** ** Motor mixing *)

Lemma F32_zero_mul_vParam (x : F32.float) :
  F32.is_zero x = true -> F32.is_zero (x * vParam)%f32 = true.
Proof. destruct x; simpl; try discriminate; reflexivity. Qed.

(** With zero corrections every mixing factor is exactly one. *)
Lemma mixing_factor_one (a b c : F32.float)
    (op1 op2 op3 : F32.float -> F32.float -> F32.float) :
  (op1 = F32.add \/ op1 = F32.sub) ->
  (op2 = F32.add \/ op2 = F32.sub) ->
  (op3 = F32.add \/ op3 = F32.sub) ->
  F32.is_zero a = true -> F32.is_zero b = true -> F32.is_zero c = true ->
  op3 (op2 (op1 (F32.lit 1 1) a) b) c = F32.lit 1 1.
Proof.
  intros [->| ->] [->| ->] [->| ->] Ha Hb Hc;
    destruct a, b, c; try discriminate; reflexivity.
Qed.

(** C5, amended: in a tick whose reads all succeed, with [thrust], [alphaCorr],
    [betaCorr] and [rotCorr] the values of the three control stages, what
    remains of the tick is the delegation of
      motor0 = thrust*(1 - alphaCorr + betaCorr + rotCorr),
      motor1 = thrust*(1 - alphaCorr - betaCorr - rotCorr),
      motor2 = thrust*(1 + alphaCorr - betaCorr + rotCorr),
      motor3 = thrust*(1 + alphaCorr + betaCorr - rotCorr)
    to the motors 0 to 3, in this order.  In particular, for targetZ = 2.0,
    bodyZ = 1.0, vertical velocity zero and zero corrections, thrust and
    the four motor commands are 6.335 provided the integral, once the
    error is added to it, and the difference of the error and the
    remembered error are finite. *)
Theorem pidControl_motor_commands
    (h : Host) (to_string : F32.float -> string) (b : Bindings)
    (s s1 s2 s3 : ControllerState)
    (targetPos pos vel : floats)
    (thrust alphaCorr betaCorr rotCorr : F32.float) :
  simGetObjectPosition h (m_target b) (-1) = Some targetPos ->
  simGetObjectPosition h (m_body b) (-1) = Some pos ->
  simGetObjectVelocity h (m_obj b) = Some vel ->
  verticalControl h b s = (s1, [], Some thrust) ->
  horizontalControl h b s1 = (s2, [], Some (alphaCorr, betaCorr)) ->
  rotationalControl h b s2 = (s3, [], Some rotCorr) ->
  let motor0 := (thrust * (F32.lit 1 1 - alphaCorr + betaCorr + rotCorr))%f32 in
  let motor1 := (thrust * (F32.lit 1 1 - alphaCorr - betaCorr - rotCorr))%f32 in
  let motor2 := (thrust * (F32.lit 1 1 + alphaCorr - betaCorr + rotCorr))%f32 in
  let motor3 := (thrust * (F32.lit 1 1 + alphaCorr + betaCorr - rotCorr))%f32 in
  pidControl h to_string b s
  = (_ ← setMotorParticleVelocity h to_string b 0 motor0;
     _ ← setMotorParticleVelocity h to_string b 1 motor1;
     _ ← setMotorParticleVelocity h to_string b 2 motor2;
     setMotorParticleVelocity h to_string b 3 motor3) s3
  /\ (targetPos 2%nat = F32.lit 2 1 ->
      pos 2%nat = F32.lit 1 1 ->
      F32.is_zero (vel 2%nat) = true ->
      F32.is_finite (m_cumul s + F32.lit 1 1)%f32 = true ->
      F32.is_finite (F32.lit 1 1 - m_lastE s)%f32 = true ->
      F32.is_zero alphaCorr = true ->
      F32.is_zero betaCorr = true ->
      F32.is_zero rotCorr = true ->
      thrust = F32.lit 6335 1000
      /\ motor0 = F32.lit 6335 1000 /\ motor1 = F32.lit 6335 1000
      /\ motor2 = F32.lit 6335 1000 /\ motor3 = F32.lit 6335 1000).
Proof.
  intros Htarget Hpos Hvel Hvert Hhor Hrot motor0 motor1 motor2 motor3.
  split.
  - unfold pidControl.
    unfold mbind at 1. unfold Tick_bind at 1. rewrite Hvert.
    unfold mbind at 1. unfold Tick_bind at 1. rewrite Hhor.
    unfold mbind at 1. unfold Tick_bind at 1. rewrite Hrot.
    cbn [app].
    change (floats_of (motorVel thrust alphaCorr betaCorr rotCorr) 0%nat)
      with motor0.
    change (floats_of (motorVel thrust alphaCorr betaCorr rotCorr) 1%nat)
      with motor1.
    change (floats_of (motorVel thrust alphaCorr betaCorr rotCorr) 2%nat)
      with motor2.
    change (floats_of (motorVel thrust alphaCorr betaCorr rotCorr) 3%nat)
      with motor3.
    match goal with
    | |- context [?c s3] => destruct (c s3) as [[s' l'] r']; reflexivity
    end.
  - intros Htz Hbz Hvz Hint Hdiff Ha Hb Hr.
    rewrite (verticalControl_ok h b s _ _ _ Htarget Hpos Hvel) in Hvert.
    injection Hvert as _ Hthrust.
    rewrite Htz, Hbz in Hthrust.
    assert (Hthrust' : thrust = F32.lit 6335 1000).
    { rewrite <- Hthrust.
      change (F32.lit 2 1 - F32.lit 1 1)%f32 with (F32.lit 1 1).
      change (F32.lit 5335 1000 + pParam * F32.lit 1 1)%f32
        with (S754_finite false 13285458 (-21)).
      rewrite F32_add_zero_r by (apply F32_zero_mul; exact Hint).
      rewrite F32_add_zero_r by (apply F32_zero_mul; exact Hdiff).
      rewrite F32_add_zero_r by (apply F32_zero_mul_vParam; exact Hvz).
      reflexivity. }
    subst motor0 motor1 motor2 motor3. rewrite Hthrust'.
    split; [reflexivity|].
    rewrite !mixing_factor_one by (first [left; reflexivity | right; reflexivity | assumption]).
    repeat split; reflexivity.
Qed.

Lemma pidControl_motor_commands_witness :
  pidControl level_hover example_to_string example_bindings zero_state
  = (set_m_lastE (F32.lit 1 1) (set_m_cumul (F32.lit 1 1) zero_state),
     [SetScriptSimulationParameter 21 "particleVelocity" "6.335000";
      SetScriptSimulationParameter 22 "particleVelocity" "6.335000";
      SetScriptSimulationParameter 23 "particleVelocity" "6.335000";
      SetScriptSimulationParameter 24 "particleVelocity" "6.335000"],
     Some tt)
  /\ motorVel (F32.lit 6335 1000) F32.zero (S754_zero true) F32.zero
     = [F32.lit 6335 1000; F32.lit 6335 1000;
        F32.lit 6335 1000; F32.lit 6335 1000].
Proof.
  pose (s1 := set_m_lastE (F32.lit 1 1)
                (set_m_cumul (F32.lit 1 1) zero_state)).
  destruct (pidControl_motor_commands level_hover example_to_string
              example_bindings zero_state s1 s1 s1
              (floats_of [F32.lit 0 1; F32.lit 0 1; F32.lit 2 1])
              (floats_of [F32.lit 0 1; F32.lit 0 1; F32.lit 1 1])
              (floats_of [F32.lit 0 1; F32.lit 0 1; F32.zero])
              (F32.lit 6335 1000) F32.zero (S754_zero true) F32.zero
              eq_refl eq_refl eq_refl eq_refl eq_refl eq_refl)
    as [Hrun Hexample].
  split.
  - rewrite Hrun. reflexivity.
  - destruct (Hexample eq_refl eq_refl eq_refl eq_refl eq_refl eq_refl
                eq_refl eq_refl) as (_ & H0 & H1 & H2 & H3).
    unfold motorVel. rewrite H0, H1, H2, H3. reflexivity.
Defined.

(** C5, as stated, fails: one tick on a host that reports a NaN target
    height leaves [nan_memory]; in the next tick the host reports the
    inputs of the example (target height 2.0, body height 1.0, no vertical
    velocity), every read succeeds and the three corrections are zero, yet
    the thrust and the four motor commands are NaN, not 6.335: the
    integral is NaN and its product with the gain 0.0 is NaN. *)
Lemma hover_thrust_after_nan_tick :
  fst (pidControl nan_target_scene example_to_string example_bindings
         zero_state)
  = (nan_memory,
     [SetScriptSimulationParameter 21 "particleVelocity" "other";
      SetScriptSimulationParameter 22 "particleVelocity" "other";
      SetScriptSimulationParameter 23 "particleVelocity" "other";
      SetScriptSimulationParameter 24 "particleVelocity" "other"])
  /\ reads_succeed level_hover example_bindings = true
  /\ option_map (fun p => p 2%nat)
       (simGetObjectPosition level_hover (m_target example_bindings) (-1))
     = Some (F32.lit 2 1)
  /\ option_map (fun p => p 2%nat)
       (simGetObjectPosition level_hover (m_body example_bindings) (-1))
     = Some (F32.lit 1 1)
  /\ option_map (fun v => F32.is_zero (v 2%nat))
       (simGetObjectVelocity level_hover (m_obj example_bindings))
     = Some true
  /\ snd (verticalControl level_hover example_bindings nan_memory)
     = Some S754_nan
  /\ snd (horizontalControl level_hover example_bindings nan_memory)
     = Some (S754_zero false, S754_zero true)
  /\ snd (rotationalControl level_hover example_bindings nan_memory)
     = Some (S754_zero false)
  /\ motorVel S754_nan (S754_zero false) (S754_zero true) (S754_zero false)
     = [S754_nan; S754_nan; S754_nan; S754_nan]
  /\ S754_nan <> F32.lit 6335 1000
  /\ snd (fst (pidControl level_hover example_to_string example_bindings
                 nan_memory))
     = [SetScriptSimulationParameter 21 "particleVelocity"
          (example_to_string S754_nan);
        SetScriptSimulationParameter 22 "particleVelocity"
          (example_to_string S754_nan);
        SetScriptSimulationParameter 23 "particleVelocity"
          (example_to_string S754_nan);
        SetScriptSimulationParameter 24 "particleVelocity"
          (example_to_string S754_nan)].
Proof.
  repeat split; vm_compute; congruence.
Qed.

(** ** Failed reads *)

(** The vertical stage either stops at one of its three reads, leaving the
    state as it was, or completes and changes [m_cumul] and [m_lastE]
    only. *)
Lemma verticalControl_cases (h : Host) (b : Bindings) (s : ControllerState) :
  (vertical_reads h b = false
   /\ exists line expr,
        In line [296; 297; 298]
        /\ verticalControl h b s = (s, [CheckFailed line expr], None))
  \/ (vertical_reads h b = true
      /\ exists s1 thrust,
           verticalControl h b s = (s1, [], Some thrust)
           /\ m_last_save_time s1 = m_last_save_time s
           /\ m_pAlphaE s1 = m_pAlphaE s /\ m_pBetaE s1 = m_pBetaE s
           /\ m_psp0 s1 = m_psp0 s /\ m_psp1 s1 = m_psp1 s
           /\ m_prevEuler s1 = m_prevEuler s).
Proof.
  unfold vertical_reads, verticalControl. run_tick.
  destruct (simGetObjectPosition h (m_target b) (-1)) as [targetPos|].
  2: { left. split; [reflexivity|]. do 2 eexists. split; [|reflexivity].
       simpl; tauto. }
  destruct (simGetObjectPosition h (m_body b) (-1)) as [pos|].
  2: { left. split; [reflexivity|]. do 2 eexists. split; [|reflexivity].
       simpl; tauto. }
  destruct (simGetObjectVelocity h (m_obj b)) as [vel|].
  2: { left. split; [reflexivity|]. do 2 eexists. split; [|reflexivity].
       simpl; tauto. }
  right. split; [reflexivity|]. do 2 eexists. split; [reflexivity|].
  repeat split.
Qed.

(** The horizontal stage either stops at one of its four reads, leaving
    the state as it was, or completes and leaves [m_cumul], [m_lastE],
    [m_prevEuler] and the time stamp alone. *)
Lemma horizontalControl_cases (h : Host) (b : Bindings) (s : ControllerState) :
  (horizontal_reads h b = false
   /\ exists line expr,
        In line [312; 313; 314; 315]
        /\ horizontalControl h b s = (s, [CheckFailed line expr], None))
  \/ (horizontal_reads h b = true
      /\ exists s2 corr,
           horizontalControl h b s = (s2, [], Some corr)
           /\ m_last_save_time s2 = m_last_save_time s
           /\ m_cumul s2 = m_cumul s /\ m_lastE s2 = m_lastE s
           /\ m_prevEuler s2 = m_prevEuler s).
Proof.
  unfold horizontal_reads, horizontalControl. run_tick.
  destruct (simGetObjectPosition h (m_target b) (m_body b)) as [sp|].
  2: { left. split; [reflexivity|]. do 2 eexists. split; [|reflexivity].
       simpl; tauto. }
  destruct (simGetObjectMatrix h (m_body b) (-1)) as [m|].
  2: { left. split; [reflexivity|]. do 2 eexists. split; [|reflexivity].
       simpl; tauto. }
  destruct (simTransformVector h m _) as [vx|].
  2: { left. split; [reflexivity|]. do 2 eexists. split; [|reflexivity].
       simpl; tauto. }
  destruct (simTransformVector h m _) as [vy|].
  2: { left. split; [reflexivity|]. do 2 eexists. split; [|reflexivity].
       simpl; tauto. }
  right. split; [reflexivity|]. do 2 eexists. split; [reflexivity|].
  repeat split.
Qed.

(** The rotational stage either stops at its read, leaving the state as it
    was, or completes and changes [m_prevEuler] only. *)
Lemma rotationalControl_cases (h : Host) (b : Bindings) (s : ControllerState) :
  (rotational_reads h b = false
   /\ exists expr,
        rotationalControl h b s = (s, [CheckFailed 332 expr], None))
  \/ (rotational_reads h b = true
      /\ exists s3 rotCorr,
           rotationalControl h b s = (s3, [], Some rotCorr)).
Proof.
  unfold rotational_reads, rotationalControl. run_tick.
  destruct (simGetObjectOrientation h (m_body b) (m_target b)) as [euler|].
  - right. split; [reflexivity|]. do 2 eexists. reflexivity.
  - left. split; [reflexivity|]. eexists. reflexivity.
Qed.





(** ** Level order *)

Lemma level_app (d : nat) :
  forall ts us : list tree, level d (ts ++ us) = level d ts ++ level d us.
Proof.
  induction d as [|d IH]; intros ts us; simpl.
  - apply map_app.
  - rewrite flat_map_app. apply IH.
Qed.

Lemma height_forest_step (ts : list tree) :
  ts <> [] ->
  list_max (map height ts) = S (list_max (map height (flat_map kids ts))).
Proof.
  induction ts as [|[x ks] ts IH]; intros Hne; [congruence|].
  destruct ts as [|t ts'].
  - simpl. rewrite app_nil_r. lia.
  - cbn [map flat_map kids list_max fold_right] in *.
    rewrite map_app, list_max_app.
    change (fold_right Init.Nat.max 0%nat) with list_max in *.
    cbn [height]. rewrite IH by discriminate. lia.
Qed.

Lemma levels_shift (ts : list tree) (l : list nat) :
  flat_map (fun d => level d ts) (map S l)
  = flat_map (fun d => level d (flat_map kids ts)) l.
Proof.
  induction l as [|d l IH]; [reflexivity|].
  cbn [map flat_map level]. rewrite IH. reflexivity.
Qed.

(** The level order of a forest is its roots followed by the level order
    of all their children. *)
Lemma bfs_forest_unfold (ts : list tree) :
  bfs_forest ts = map root ts ++ bfs_forest (flat_map kids ts).
Proof.
  destruct ts as [|t ts]; [reflexivity|].
  unfold bfs_forest at 1.
  rewrite height_forest_step by discriminate.
  rewrite <- cons_seq, <- seq_shift.
  change (flat_map (fun d => level d (t :: ts)) (0%nat :: ?l))
    with (map root (t :: ts) ++ flat_map (fun d => level d (t :: ts)) l).
  f_equal. apply levels_shift.
Qed.

(** Moving the front trees of a forest behind the others, as a queue
    does, moves their children behind the children of the others. *)
Lemma bfs_forest_rotate (n : nat) :
  forall ts us : list tree,
    (list_max (map height ts) <= n)%nat ->
    bfs_forest (ts ++ us)
    = map root ts ++ bfs_forest (us ++ flat_map kids ts).
Proof.
  induction n as [|n IH]; intros ts us Hn.
  - destruct ts as [|[x ks] ts]; [simpl; rewrite app_nil_r; reflexivity|].
    simpl in Hn. lia.
  - destruct ts as [|t ts]; [simpl; rewrite app_nil_r; reflexivity|].
    rewrite (bfs_forest_unfold ((t :: ts) ++ us)).
    rewrite (bfs_forest_unfold (us ++ flat_map kids (t :: ts))).
    rewrite !map_app, !flat_map_app.
    rewrite (IH (flat_map kids (t :: ts)) (flat_map kids us)).
    + rewrite <- !app_assoc. reflexivity.
    + rewrite height_forest_step in Hn by discriminate. lia.
Qed.

(** One step of a queue: the first tree leaves, its children join at the
    back. *)
Lemma bfs_forest_cons (x : Z) (ks rest : list tree) :
  bfs_forest (Node x ks :: rest) = x :: bfs_forest (rest ++ ks).
Proof.
  change (Node x ks :: rest) with ([Node x ks] ++ rest).
  rewrite (bfs_forest_rotate (height (Node x ks))).
  - simpl. rewrite app_nil_r. reflexivity.
  - simpl. lia.
Qed.

Lemma bfs_order_root (t : tree) :
  bfs_order t = root t :: bfs_forest (kids t).
Proof.
  destruct t as [x ks]. unfold bfs_order. rewrite bfs_forest_cons.
  reflexivity.
Qed.

(** ** The search on a host that shows a tree *)

Lemma representsb_node (h : Host) (x : Z) (ks : list tree) :
  representsb h (Node x ks) = true ->
  x <> -1
  /\ (forall i : nat, (i <= length ks)%nat ->
        simGetObjectChild h x (Z.of_nat i) = nth i (map root ks) (-1))
  /\ forallb (representsb h) ks = true.
Proof.
  cbn [representsb]. intros Hrep.
  apply andb_true_iff in Hrep as [Hrep Hkids].
  apply andb_true_iff in Hrep as [Hx Hchild].
  split; [|split; [|exact Hkids]].
  - apply negb_true_iff, Z.eqb_neq in Hx. exact Hx.
  - intros i Hi. rewrite forallb_forall in Hchild.
    apply Z.eqb_eq, Hchild, in_seq. lia.
Qed.

Lemma represented_roots (h : Host) (ts : list tree) :
  forallb (representsb h) ts = true -> Forall (fun o => o <> -1) (map root ts).
Proof.
  induction ts as [|[x ks] ts IH]; cbn [forallb map]; intros Hrep.
  - constructor.
  - apply andb_true_iff in Hrep as [Hx Hts].
    constructor; [|apply IH; exact Hts].
    pose proof (representsb_node h x ks Hx). tauto.
Qed.

Lemma represented_kids (h : Host) (ts : list tree) :
  forallb (representsb h) ts = true ->
  forallb (representsb h) (flat_map kids ts) = true.
Proof.
  induction ts as [|[x ks] ts IH]; cbn [forallb flat_map kids]; intros Hrep;
    [reflexivity|].
  apply andb_true_iff in Hrep as [Hx Hts].
  rewrite forallb_app. apply andb_true_iff. split; [|apply IH; exact Hts].
  pose proof (representsb_node h x ks Hx). tauto.
Qed.

(** The inner loop enqueues the children that remain from index [j] on,
    in order, and stops at the first -1. *)
Lemma enqueueChildren_suffix (h : Host) (x : Z) (suffix : list Z) :
  forall (j : nat) (q : deque) (fuel : nat),
    (forall i : nat, (i <= length suffix)%nat ->
       simGetObjectChild h x (Z.of_nat (j + i)) = nth i suffix (-1)) ->
    Forall (fun o => o <> -1) suffix ->
    (length suffix < fuel)%nat ->
    enqueueChildren h fuel x (Z.of_nat j) q = Ret (push_all q suffix).
Proof.
  induction suffix as [|c suffix IH]; intros j q fuel Hchild Hne Hfuel;
    (destruct fuel as [|fuel]; [simpl in Hfuel; lia|]); cbn [enqueueChildren].
  - specialize (Hchild 0%nat (Nat.le_refl _)).
    rewrite Nat.add_0_r in Hchild. rewrite Hchild. cbn [nth].
    destruct q as [it pu]. unfold push_all. cbn [items pushed].
    rewrite !app_nil_r. reflexivity.
  - pose proof (Hchild 0%nat ltac:(simpl; lia)) as Hc.
    rewrite Nat.add_0_r in Hc. rewrite Hc. cbn [nth].
    inversion Hne as [|? ? Hc1 Hne']; subst.
    destruct (Z.eqb_spec c (-1)) as [Heq|_]; [contradiction|].
    replace (Z.of_nat j + 1) with (Z.of_nat (S j)) by lia.
    rewrite (IH (S j) (push_back q c) fuel).
    + unfold push_all, push_back. cbn [items pushed].
      rewrite <- !app_assoc. reflexivity.
    + intros i Hi. replace (S j + i)%nat with (j + S i)%nat by lia.
      rewrite Hchild by (simpl; lia). reflexivity.
    + exact Hne'.
    + simpl in Hfuel. lia.
Qed.

Lemma enqueueChildren_node (h : Host) (x : Z) (ks : list tree)
    (q : deque) (fuel : nat) :
  representsb h (Node x ks) = true ->
  (length ks < fuel)%nat ->
  enqueueChildren h fuel x 0 q = Ret (push_all q (map root ks)).
Proof.
  intros Hrep Hfuel.
  destruct (representsb_node h x ks Hrep) as (_ & Hchild & Hkids).
  apply (enqueueChildren_suffix h x (map root ks) 0%nat q fuel).
  - intros i Hi. rewrite length_map in Hi. apply Hchild. exact Hi.
  - apply (represented_roots h). exact Hkids.
  - rewrite length_map. exact Hfuel.
Qed.

Lemma size_pos (t : tree) : (1 <= size t)%nat.
Proof. destruct t; simpl; lia. Qed.

Lemma length_le_size (ts : list tree) :
  (length ts <= list_sum (map size ts))%nat.
Proof.
  induction ts as [|t ts IH]; simpl; [lia|].
  pose proof (size_pos t). lia.
Qed.

Lemma bfs_forest_kids_cons (x : Z) (ks rest : list tree) :
  bfs_forest (flat_map kids (Node x ks :: rest))
  = map root ks ++ bfs_forest (flat_map kids (rest ++ ks)).
Proof.
  cbn [flat_map kids]. rewrite flat_map_app.
  apply (bfs_forest_rotate (list_max (map height ks))). lia.
Qed.

(** The loop on a queue that holds the roots of a forest the host shows:
    with more fuel than the forest has objects it tests the objects in
    level order up to the first test that is not [false], and what it
    enqueues on the way is an initial part of the level order of the
    children, the whole of it when every test is [false]. *)
Lemma searchLoop_forest (h : Host) (field : Z) (fuel : nat) :
  forall (ts : list tree) (P : list Z),
    forallb (representsb h) ts = true ->
    (list_sum (map size ts) < fuel)%nat ->
    exists new : list Z,
      searchLoop h fuel field {| items := map root ts; pushed := P |}
      = (first_hit h field (bfs_forest ts), P ++ new)
      /\ new `prefix_of` bfs_forest (flat_map kids ts)
      /\ (Forall (fun o => hasCustomDataField h o field = Ret false)
            (bfs_forest ts) ->
          new = bfs_forest (flat_map kids ts)).
Proof.
  induction fuel as [|fuel IH]; intros ts P Hrep Hfuel; [lia|].
  destruct ts as [|[x ks] rest].
  - exists []. cbn [searchLoop map items pushed].
    rewrite app_nil_r. repeat split. apply prefix_nil.
  - cbn [forallb] in Hrep. apply andb_true_iff in Hrep as [Hx Hrest].
    cbn [map list_sum fold_right size] in Hfuel.
    change (fold_right Init.Nat.add 0%nat) with list_sum in Hfuel.
    pose proof (length_le_size ks) as Hlen.
    rewrite bfs_forest_cons, bfs_forest_kids_cons.
    cbn [searchLoop map root items pushed first_hit].
    destruct (hasCustomDataField h x field) as [[|]|e| |] eqn:Htest.
    + exists []. rewrite app_nil_r. split; [reflexivity|].
      split; [apply prefix_nil|].
      intros Hall. inversion Hall; congruence.
    + rewrite (enqueueChildren_node h x ks _ fuel Hx) by lia.
      unfold push_all. cbn [items pushed]. rewrite <- map_app.
      destruct (IH (rest ++ ks) (P ++ map root ks)) as (new & Hrun & Hpre & Hall).
      * rewrite forallb_app, Hrest. cbn [andb].
        pose proof (representsb_node h x ks Hx). tauto.
      * rewrite map_app, list_sum_app. lia.
      * exists (map root ks ++ new). rewrite Hrun, <- app_assoc.
        split; [reflexivity|]. split.
        -- apply prefix_app. exact Hpre.
        -- intros Hfalse. inversion Hfalse; subst.
           rewrite Hall by assumption. reflexivity.
    + exists []. rewrite app_nil_r. split; [reflexivity|].
      split; [apply prefix_nil|].
      intros Hall. inversion Hall; congruence.
    + exists []. rewrite app_nil_r. split; [reflexivity|].
      split; [apply prefix_nil|].
      intros Hall. inversion Hall; congruence.
    + exists []. rewrite app_nil_r. split; [reflexivity|].
      split; [apply prefix_nil|].
      intros Hall. inversion Hall; congruence.
Qed.

Lemma hasCustomDataField_ends (h : Host) (obj field : Z) :
  hasCustomDataField h obj field <> OutOfFuel.
Proof.
  unfold hasCustomDataField.
  destruct (simGetObjectCustomDataLength h obj DATA_ID <=? 0);
    [discriminate|].
  pose proof (parseCustomData_total
                (customDataBuffer h obj
                   (simGetObjectCustomDataLength h obj DATA_ID))) as Htotal.
  destruct (parseCustomData _); cbn [mbind res_bind]; congruence.
Qed.

Lemma first_hit_ends (h : Host) (field : Z) (l : list Z) :
  first_hit h field l <> OutOfFuel.
Proof.
  induction l as [|o l IH]; cbn [first_hit]; [discriminate|].
  pose proof (hasCustomDataField_ends h o field) as Hends.
  destruct (hasCustomDataField h o field) as [[|]|e| |]; congruence.
Qed.

(** When every test returns, the search result is the first object of the
    order that carries the field, and -1 when there is none. *)
Lemma first_hit_find (h : Host) (field : Z) (l : list Z) :
  Forall (fun o => decodes h field o = true) l ->
  first_hit h field l
  = Ret (match find (carries h field) l with Some obj => obj | None => -1 end).
Proof.
  induction 1 as [|o l Ho Hl IH]; cbn [first_hit find]; [reflexivity|].
  unfold decodes in Ho. unfold carries at 1.
  destruct (hasCustomDataField h o field) as [[|]|e| |]; try discriminate.
  - reflexivity.
  - exact IH.
Qed.

Lemma first_hit_absent (h : Host) (field : Z) (l : list Z) :
  Forall (fun o => o <> -1) l ->
  first_hit h field l = Ret (-1) ->
  Forall (fun o => hasCustomDataField h o field = Ret false) l.
Proof.
  induction 1 as [|o l Ho Hl IH]; cbn [first_hit]; intros Hret;
    [constructor|].
  destruct (hasCustomDataField h o field) as [[|]|e| |] eqn:Htest;
    try discriminate.
  - congruence.
  - constructor; [exact Htest | apply IH; exact Hret].
Qed.

Lemma level_handles (h : Host) (d : nat) :
  forall ts : list tree,
    forallb (representsb h) ts = true ->
    Forall (fun o => o <> -1) (level d ts).
Proof.
  induction d as [|d IH]; intros ts Hrep; cbn [level].
  - apply (represented_roots h). exact Hrep.
  - apply IH, represented_kids. exact Hrep.
Qed.

Lemma bfs_forest_handles (h : Host) (ts : list tree) :
  forallb (representsb h) ts = true ->
  Forall (fun o => o <> -1) (bfs_forest ts).
Proof.
  intros Hrep. unfold bfs_forest. apply Forall_flat_map.
  apply Forall_forall. intros d _. apply (level_handles h). exact Hrep.
Qed.

(** The level order lists every object of the forest once. *)
Lemma bfs_forest_objects (n : nat) :
  forall ts : list tree,
    (list_sum (map size ts) <= n)%nat ->
    Permutation (bfs_forest ts) (flat_map objects ts)
    /\ length (bfs_forest ts) = list_sum (map size ts).
Proof.
  induction n as [|n IH]; intros ts Hn.
  - destruct ts as [|t ts]; [split; [constructor | reflexivity]|].
    pose proof (size_pos t). simpl in Hn. lia.
  - destruct ts as [|[x ks] rest]; [split; [constructor | reflexivity]|].
    rewrite bfs_forest_cons.
    cbn [map list_sum fold_right size flat_map objects] in *.
    change (fold_right Init.Nat.add 0%nat) with list_sum in *.
    destruct (IH (rest ++ ks)) as [Hperm Hlen].
    { rewrite map_app, list_sum_app. lia. }
    split.
    + cbn [app]. apply perm_skip. rewrite Hperm, flat_map_app.
      apply Permutation_app_comm.
    + cbn [length]. rewrite Hlen, map_app, list_sum_app. lia.
Qed.

Lemma bfs_order_objects (t : tree) :
  Permutation (bfs_order t) (objects t)
  /\ length (bfs_order t) = size t.
Proof.
  destruct (bfs_forest_objects (size t + 0) [t]) as [Hperm Hlen];
    [simpl; lia|].
  unfold bfs_order. cbn [flat_map map list_sum fold_right] in *.
  rewrite app_nil_r in Hperm. split; [exact Hperm | lia].
Qed.

(** The search from the root of a tree the host shows. *)
Lemma searchTrace_tree (h : Host) (t : tree) (field : Z) (fuel : nat) :
  representsb h t = true ->
  (size t < fuel)%nat ->
  exists log : list Z,
    searchTrace h fuel (root t) field
    = (first_hit h field (bfs_order t), log)
    /\ log `prefix_of` bfs_order t
    /\ (Forall (fun o => hasCustomDataField h o field = Ret false)
          (bfs_order t) ->
        log = bfs_order t).
Proof.
  intros Hrep Hfuel.
  destruct (searchLoop_forest h field fuel [t] [root t])
    as (new & Hrun & Hpre & Hall).
  { cbn [forallb]. rewrite Hrep. reflexivity. }
  { simpl. lia. }
  exists ([root t] ++ new). unfold searchTrace, push_back, deque_empty.
  cbn [items pushed app map flat_map] in *. fold (bfs_order t) in *.
  rewrite app_nil_r in *.
  split; [exact Hrun|]. split.
  - rewrite (bfs_order_root t). apply prefix_cons. exact Hpre.
  - intros Hfalse. rewrite Hall by exact Hfalse.
    symmetry. apply bfs_order_root.
Qed.

(** The result of the loop does not depend on the fuel once there is more
    of it than objects in the queued forest. *)
Lemma searchLoop_fuel (h : Host) (field : Z) (fuel1 : nat) :
  forall (fuel2 : nat) (ts : list tree) (P : list Z),
    forallb (representsb h) ts = true ->
    (list_sum (map size ts) < fuel1)%nat ->
    (list_sum (map size ts) < fuel2)%nat ->
    searchLoop h fuel1 field {| items := map root ts; pushed := P |}
    = searchLoop h fuel2 field {| items := map root ts; pushed := P |}.
Proof.
  induction fuel1 as [|fuel1 IH]; intros fuel2 ts P Hrep H1 H2; [lia|].
  destruct fuel2 as [|fuel2]; [lia|].
  destruct ts as [|[x ks] rest]; [reflexivity|].
  cbn [forallb] in Hrep. apply andb_true_iff in Hrep as [Hx Hrest].
  cbn [map list_sum fold_right size] in H1, H2.
  change (fold_right Init.Nat.add 0%nat) with list_sum in H1, H2.
  pose proof (length_le_size ks) as Hlen.
  cbn [searchLoop map root items pushed].
  destruct (hasCustomDataField h x field) as [[|]|e| |]; try reflexivity.
  rewrite (enqueueChildren_node h x ks _ fuel1 Hx) by lia.
  rewrite (enqueueChildren_node h x ks _ fuel2 Hx) by lia.
  unfold push_all. cbn [items pushed]. rewrite <- map_app.
  apply IH.
  - rewrite forallb_app, Hrest. cbn [andb].
    pose proof (representsb_node h x ks Hx). tauto.
  - rewrite map_app, list_sum_app. lia.
  - rewrite map_app, list_sum_app. lia.
Qed.

Example example_scene_shows_tree : representsb example_scene example_tree = true.
Proof. reflexivity. Qed.

Example example_levels :
  level 0 [example_tree] = [1] /\ level 1 [example_tree] = [2; 3]
  /\ level 2 [example_tree] = [4; 5; 6; 7] /\ height example_tree = 3%nat.
Proof. repeat split. Qed.

(** Objects 4 and 3 carry the body tag; the search returns 3, which is on
    the upper level, and has by then enqueued the children of 1 and 2 but
    not those of 3. *)
Example example_search_trace :
  searchTrace example_scene 8 1 FIELD_BODY = (Ret 3, [1; 2; 3; 4; 5]).
Proof. vm_compute. reflexivity. Qed.

Example example_search_exhausts :
  searchTrace example_scene 8 1 FIELD_TARGET = (Ret (-1), [1; 2; 3; 4; 5; 6; 7]).
Proof. vm_compute. reflexivity. Qed.

(** With too little fuel the model reports it; this is not a result of the
    code. *)
Example example_search_fuel :
  searchCustomDataField example_scene 3 1 FIELD_TARGET = OutOfFuel.
Proof. vm_compute. reflexivity. Qed.

(** When moreover the custom data of every object of the tree decodes, the
    search returns the first object of the breadth-first order that
    carries the field, and -1 when no object of the tree carries it. *)
Corollary searchCustomDataField_bfs
    (h : Host) (t : tree) (field : Z) (fuel : nat) :
  representsb h t = true ->
  forallb (decodes h field) (objects t) = true ->
  (size t < fuel)%nat ->
  let found := match find (carries h field) (bfs_order t) with
               | Some obj => obj
               | None => -1
               end in
  bfs_order t = root t :: bfs_forest (kids t)
  /\ searchCustomDataField h fuel (root t) field = Ret found
  /\ (exists log : list Z,
        searchTrace h fuel (root t) field = (Ret found, log)
        /\ log `prefix_of` bfs_order t)
  /\ ((forall obj, In obj (objects t) -> carries h field obj = false) ->
      searchCustomDataField h fuel (root t) field = Ret (-1)).
Proof.
  intros Hrep Hdec Hfuel found.
  destruct (searchTrace_tree h t field fuel Hrep Hfuel)
    as (log & Hrun & Hpre & _).
  destruct (bfs_order_objects t) as [Hperm _].
  assert (Hfind : first_hit h field (bfs_order t) = Ret found).
  { apply first_hit_find. apply List.Forall_forall. intros o Ho.
    rewrite forallb_forall in Hdec. apply Hdec.
    apply (Permutation_in _ Hperm). exact Ho. }
  rewrite Hfind in Hrun.
  assert (Hres : searchCustomDataField h fuel (root t) field = Ret found).
  { unfold searchCustomDataField. rewrite Hrun. reflexivity. }
  split; [apply bfs_order_root|]. split; [exact Hres|].
  split; [exists log; split; assumption|].
  intros Hnone. rewrite Hres. subst found.
  destruct (find (carries h field) (bfs_order t)) as [obj|] eqn:Hf;
    [|reflexivity].
  apply find_some in Hf as [Hin Hcarries].
  rewrite Hnone in Hcarries; [discriminate|].
  apply (Permutation_in _ Hperm). exact Hin.
Qed.

Lemma searchCustomDataField_bfs_witness :
  bfs_order example_tree = [1; 2; 3; 4; 5; 6; 7]
  /\ searchCustomDataField example_scene 8 1 FIELD_BODY = Ret 3
  /\ searchCustomDataField example_scene 8 1 FIELD_TARGET = Ret (-1).
Proof.
  destruct (searchCustomDataField_bfs example_scene example_tree FIELD_BODY 8
              eq_refl eq_refl ltac:(simpl; lia)) as (Horder & Hbody & _).
  destruct (searchCustomDataField_bfs example_scene example_tree FIELD_TARGET 8
              eq_refl eq_refl ltac:(simpl; lia)) as (_ & _ & _ & Htarget).
  split; [rewrite Horder; reflexivity|].
  split; [exact Hbody|].
  apply Htarget. intros obj Hin. simpl in Hin.
  repeat (destruct Hin as [<-|Hin]; [reflexivity|]). contradiction.
Defined.

(** ** The search, test by test *)

Lemma level_trees_roots (d : nat) :
  forall ts : list tree, map root (level_trees d ts) = level d ts.
Proof.
  induction d as [|d IH]; intros ts; cbn [level_trees level];
    [reflexivity | apply IH].
Qed.

(** The breadth-first order of the objects is the breadth-first order of
    the subtrees, each taken at its root. *)
Lemma bfs_trees_roots (ts : list tree) :
  map root (bfs_trees ts) = bfs_forest ts.
Proof.
  unfold bfs_trees, bfs_forest.
  induction (seq 0 (list_max (map height ts))) as [|d l IH];
    cbn [flat_map map]; [reflexivity|].
  rewrite map_app, level_trees_roots, IH. reflexivity.
Qed.

Lemma level_trees_shift (ts : list tree) (l : list nat) :
  flat_map (fun d => level_trees d ts) (map S l)
  = flat_map (fun d => level_trees d (flat_map kids ts)) l.
Proof.
  induction l as [|d l IH]; [reflexivity|].
  cbn [map flat_map level_trees]. rewrite IH. reflexivity.
Qed.

Lemma bfs_trees_unfold (ts : list tree) :
  bfs_trees ts = ts ++ bfs_trees (flat_map kids ts).
Proof.
  destruct ts as [|t ts]; [reflexivity|].
  unfold bfs_trees at 1.
  rewrite height_forest_step by discriminate.
  rewrite <- cons_seq, <- seq_shift.
  change (flat_map (fun d => level_trees d (t :: ts)) (0%nat :: ?l))
    with ((t :: ts) ++ flat_map (fun d => level_trees d (t :: ts)) l).
  f_equal. apply level_trees_shift.
Qed.

Lemma bfs_trees_rotate (n : nat) :
  forall ts us : list tree,
    (list_max (map height ts) <= n)%nat ->
    bfs_trees (ts ++ us) = ts ++ bfs_trees (us ++ flat_map kids ts).
Proof.
  induction n as [|n IH]; intros ts us Hn.
  - destruct ts as [|[x ks] ts]; [simpl; rewrite app_nil_r; reflexivity|].
    simpl in Hn. lia.
  - destruct ts as [|t ts]; [simpl; rewrite app_nil_r; reflexivity|].
    rewrite (bfs_trees_unfold ((t :: ts) ++ us)).
    rewrite (bfs_trees_unfold (us ++ flat_map kids (t :: ts))).
    rewrite !flat_map_app.
    rewrite (IH (flat_map kids (t :: ts)) (flat_map kids us)).
    + rewrite <- !app_assoc. reflexivity.
    + rewrite height_forest_step in Hn by discriminate. lia.
Qed.

(** One step of a queue, on subtrees. *)
Lemma bfs_trees_cons (x : Z) (ks rest : list tree) :
  bfs_trees (Node x ks :: rest) = Node x ks :: bfs_trees (rest ++ ks).
Proof.
  change (Node x ks :: rest) with ([Node x ks] ++ rest).
  rewrite (bfs_trees_rotate (height (Node x ks))).
  - simpl. rewrite app_nil_r. reflexivity.
  - simpl. lia.
Qed.

(** The loop on a queue that holds the roots of a forest the host shows,
    exactly: it tests the objects in level order up to the first test that
    is not [false], and it has enqueued the children of the objects tested
    [false], nothing more. *)
Lemma searchLoop_exact (h : Host) (field : Z) (fuel : nat) :
  forall (ts : list tree) (P : list Z),
    forallb (representsb h) ts = true ->
    (list_sum (map size ts) < fuel)%nat ->
    searchLoop h fuel field {| items := map root ts; pushed := P |}
    = (first_hit h field (bfs_forest ts),
       P ++ map root (flat_map kids (tested_false h field (bfs_trees ts)))).
Proof.
  induction fuel as [|fuel IH]; intros ts P Hrep Hfuel; [lia|].
  destruct ts as [|[x ks] rest].
  - cbn [searchLoop map items pushed]. rewrite app_nil_r. reflexivity.
  - cbn [forallb] in Hrep. apply andb_true_iff in Hrep as [Hx Hrest].
    cbn [map list_sum fold_right size] in Hfuel.
    change (fold_right Init.Nat.add 0%nat) with list_sum in Hfuel.
    pose proof (length_le_size ks) as Hlen.
    rewrite bfs_forest_cons, bfs_trees_cons.
    cbn [searchLoop map root items pushed first_hit tested_false].
    destruct (hasCustomDataField h x field) as [[|]|e| |] eqn:Htest;
      cbn [flat_map map]; rewrite ?app_nil_r; try reflexivity.
    rewrite (enqueueChildren_node h x ks _ fuel Hx) by lia.
    unfold push_all. cbn [items pushed kids]. rewrite <- map_app.
    rewrite (IH (rest ++ ks) (P ++ map root ks)).
    + rewrite map_app, <- app_assoc. reflexivity.
    + rewrite forallb_app, Hrest. cbn [andb].
      pose proof (representsb_node h x ks Hx). tauto.
    + rewrite map_app, list_sum_app. lia.
Qed.

Lemma searchTrace_exact (h : Host) (t : tree) (field : Z) (fuel : nat) :
  representsb h t = true ->
  (size t < fuel)%nat ->
  searchTrace h fuel (root t) field
  = (first_hit h field (bfs_order t),
     enqueued t (tested_false h field (bfs_trees [t]))).
Proof.
  intros Hrep Hfuel. unfold searchTrace, push_back, deque_empty, enqueued.
  cbn [items pushed app].
  apply (searchLoop_exact h field fuel [t] [root t]).
  - cbn [forallb]. rewrite Hrep. reflexivity.
  - simpl. lia.
Qed.

Lemma tested_false_all (h : Host) (field : Z) (l : list tree) :
  Forall (fun o => hasCustomDataField h o field = Ret false) (map root l) ->
  tested_false h field l = l.
Proof.
  induction l as [|v l IH]; cbn [map tested_false]; intros Hall;
    [reflexivity|].
  inversion Hall as [|? ? Hv Hl]; subst. rewrite Hv, IH by exact Hl.
  reflexivity.
Qed.

Lemma tested_false_stop (h : Host) (field : Z) (V W : list tree) (x : tree) :
  Forall (fun v => hasCustomDataField h (root v) field = Ret false) V ->
  hasCustomDataField h (root x) field <> Ret false ->
  tested_false h field (V ++ x :: W) = V.
Proof.
  intros HV Hx. induction HV as [|v V Hv HV IH]; cbn [app tested_false].
  - destruct (hasCustomDataField h (root x) field) as [[|]|e| |];
      congruence.
  - rewrite Hv, IH. reflexivity.
Qed.

Lemma first_hit_app (h : Host) (field : Z) (pre l : list Z) :
  Forall (fun o => hasCustomDataField h o field = Ret false) pre ->
  first_hit h field (pre ++ l) = first_hit h field l.
Proof.
  induction 1 as [|o pre Ho Hpre IH]; cbn [app first_hit]; [reflexivity|].
  rewrite Ho. exact IH.
Qed.

Lemma first_hit_none (h : Host) (field : Z) (l : list Z) :
  Forall (fun o => hasCustomDataField h o field = Ret false) l ->
  first_hit h field l = Ret (-1).
Proof.
  intros Hall. rewrite <- (app_nil_r l), first_hit_app by exact Hall.
  reflexivity.
Qed.

(** The search ends at the first object whose test is not [false]: the
    outcome is that of this test, and the children of the objects tested
    before it are all that was enqueued after the root. *)
Lemma searchTrace_stop (h : Host) (t : tree) (field : Z) (fuel : nat)
    (V W : list tree) (x : tree) :
  representsb h t = true ->
  (size t < fuel)%nat ->
  bfs_trees [t] = V ++ x :: W ->
  Forall (fun v => hasCustomDataField h (root v) field = Ret false) V ->
  hasCustomDataField h (root x) field <> Ret false ->
  searchTrace h fuel (root t) field
  = (first_hit h field [root x], enqueued t V).
Proof.
  intros Hrep Hfuel Horder HV Hx.
  rewrite (searchTrace_exact h t field fuel Hrep Hfuel).
  unfold bfs_order. rewrite <- bfs_trees_roots, Horder.
  rewrite (tested_false_stop h field V W x HV Hx).
  rewrite map_app. cbn [map].
  rewrite first_hit_app by (apply Forall_map; exact HV).
  cbn [first_hit].
  destruct (hasCustomDataField h (root x) field) as [[|]|e| |];
    congruence.
Qed.

(** The search that exhausts the tree has enqueued every object. *)
Lemma enqueued_all (h : Host) (t : tree) (field : Z) :
  representsb h t = true ->
  Forall (fun o => hasCustomDataField h o field = Ret false) (bfs_order t) ->
  enqueued t (tested_false h field (bfs_trees [t])) = bfs_order t.
Proof.
  intros Hrep Hall.
  destruct (searchTrace_tree h t field (S (size t)) Hrep (Nat.lt_succ_diag_r _))
    as (log & Hrun & _ & Hlog).
  rewrite (searchTrace_exact h t field _ Hrep (Nat.lt_succ_diag_r _)) in Hrun.
  rewrite <- (Hlog Hall). congruence.
Qed.

Lemma enqueued_prefix (h : Host) (t : tree) (field : Z) :
  representsb h t = true ->
  enqueued t (tested_false h field (bfs_trees [t])) `prefix_of` bfs_order t.
Proof.
  intros Hrep.
  destruct (searchTrace_tree h t field (S (size t)) Hrep (Nat.lt_succ_diag_r _))
    as (log & Hrun & Hpre & _).
  rewrite (searchTrace_exact h t field _ Hrep (Nat.lt_succ_diag_r _)) in Hrun.
  replace (enqueued t (tested_false h field (bfs_trees [t]))) with log
    by congruence.
  exact Hpre.
Qed.

(** C4, as stated, fails: the host shows a finite tree in which object 4
    carries the body tag, and is the first object in breadth-first order
    that does, yet the search does not return it; and no object carries
    the target tag, yet the search does not return -1.  Object 3, tested
    before, has custom data that does not decode, and the format error
    leaves the search. *)
Lemma search_stops_at_malformed_object :
  representsb malformed_scene malformed_tree = true
  /\ bfs_order malformed_tree = [1; 2; 3; 4]
  /\ find (carries malformed_scene FIELD_BODY) (bfs_order malformed_tree)
     = Some 4
  /\ searchCustomDataField malformed_scene 5 1 FIELD_BODY <> Ret 4
  /\ searchCustomDataField malformed_scene 5 1 FIELD_BODY = Throw format_error
  /\ forallb (fun obj => negb (carries malformed_scene FIELD_TARGET obj))
       (objects malformed_tree) = true
  /\ searchCustomDataField malformed_scene 5 1 FIELD_TARGET <> Ret (-1)
  /\ searchCustomDataField malformed_scene 5 1 FIELD_TARGET
     = Throw format_error.
Proof.
  repeat split; vm_compute; congruence.
Qed.

(** C4, amended: on a host that shows a finite tree the search tests the
    objects in breadth-first order (the root first, then level by level,
    children left to right in host order) and ends at the first object
    whose test does not return [false].  If that object carries the field
    it is returned at once: after the root, the children of the objects
    tested before it have been enqueued and nothing else, whatever the
    custom data of the objects behind it.  If its custom data does not
    decode, the error leaves the search.  The search returns -1 exactly
    when every object tests [false], after having enqueued every
    object. *)
Theorem searchCustomDataField_first_match
    (h : Host) (t : tree) (field : Z) (fuel : nat) :
  representsb h t = true ->
  (size t < fuel)%nat ->
  map root (bfs_trees [t]) = bfs_order t
  /\ bfs_order t = root t :: bfs_forest (kids t)
  /\ (forall (V W : list tree) (x : tree),
        bfs_trees [t] = V ++ x :: W ->
        Forall (fun v => hasCustomDataField h (root v) field = Ret false) V ->
        (hasCustomDataField h (root x) field = Ret true ->
         searchCustomDataField h fuel (root t) field = Ret (root x)
         /\ searchTrace h fuel (root t) field = (Ret (root x), enqueued t V))
        /\ (forall e : exn,
              hasCustomDataField h (root x) field = Throw e ->
              searchTrace h fuel (root t) field = (Throw e, enqueued t V))
        /\ (hasCustomDataField h (root x) field = Undefined ->
            searchTrace h fuel (root t) field = (Undefined, enqueued t V)))
  /\ (Forall (fun o => hasCustomDataField h o field = Ret false)
        (bfs_order t) ->
      searchCustomDataField h fuel (root t) field = Ret (-1)
      /\ searchTrace h fuel (root t) field = (Ret (-1), bfs_order t))
  /\ (searchCustomDataField h fuel (root t) field = Ret (-1) ->
      Forall (fun o => hasCustomDataField h o field = Ret false)
        (bfs_order t)).
Proof.
  intros Hrep Hfuel.
  split; [apply bfs_trees_roots|]. split; [apply bfs_order_root|].
  split; [|split].
  - intros V W x Horder HV.
    assert (Hstop : hasCustomDataField h (root x) field <> Ret false ->
                    searchTrace h fuel (root t) field
                    = (first_hit h field [root x], enqueued t V))
      by (apply searchTrace_stop with (W := W); assumption).
    cbn [first_hit] in Hstop.
    split; [|split].
    + intros Hx. rewrite Hx in Hstop. unfold searchCustomDataField.
      rewrite Hstop by discriminate. split; reflexivity.
    + intros e Hx. rewrite Hx in Hstop. apply Hstop. discriminate.
    + intros Hx. rewrite Hx in Hstop. apply Hstop. discriminate.
  - intros Hall.
    assert (Hrun : searchTrace h fuel (root t) field
                   = (Ret (-1), bfs_order t)).
    { rewrite (searchTrace_exact h t field fuel Hrep Hfuel).
      rewrite (first_hit_none h field _ Hall).
      rewrite (enqueued_all h t field Hrep Hall). reflexivity. }
    unfold searchCustomDataField. rewrite Hrun. split; reflexivity.
  - unfold searchCustomDataField.
    rewrite (searchTrace_exact h t field fuel Hrep Hfuel). cbn [fst].
    intros Hret. apply first_hit_absent; [|exact Hret].
    apply (bfs_forest_handles h). cbn [forallb]. rewrite Hrep. reflexivity.
Qed.

Lemma searchCustomDataField_first_match_witness :
  bfs_order malformed_tree = [1; 2; 3; 4]
  /\ searchTrace malformed_scene 5 1 FIELD_MOTOR_0 = (Ret 2, [1; 2; 3; 4])
  /\ searchTrace example_scene 8 1 FIELD_BODY = (Ret 3, [1; 2; 3; 4; 5])
  /\ searchTrace example_scene 8 1 FIELD_TARGET
     = (Ret (-1), [1; 2; 3; 4; 5; 6; 7]).
Proof.
  destruct (searchCustomDataField_first_match malformed_scene malformed_tree
              FIELD_MOTOR_0 5 eq_refl ltac:(simpl; lia))
    as (_ & Horder & Hstop & _).
  destruct (Hstop [malformed_tree] [Node 3 []; Node 4 []] (Node 2 []) eq_refl
              ltac:(repeat constructor)) as (Hmotor & _).
  destruct (searchCustomDataField_first_match example_scene example_tree
              FIELD_BODY 8 eq_refl ltac:(simpl; lia))
    as (_ & _ & Hstop' & _).
  destruct (Hstop' [example_tree; Node 2 [Node 4 []; Node 5 []]]
              [Node 4 []; Node 5 []; Node 6 []; Node 7 []]
              (Node 3 [Node 6 []; Node 7 []]) eq_refl
              ltac:(repeat constructor)) as (Hbody & _).
  destruct (searchCustomDataField_first_match example_scene example_tree
              FIELD_TARGET 8 eq_refl ltac:(simpl; lia))
    as (_ & _ & _ & Hnone & _).
  split; [rewrite Horder; reflexivity|].
  split; [exact (proj2 (Hmotor eq_refl))|].
  split; [exact (proj2 (Hbody eq_refl))|].
  exact (proj2 (Hnone ltac:(repeat constructor))).
Defined.

(** C3, amended: when the custom data of an object is cut where a 32-bit
    integer is expected, the format error thrown by the decoder leaves
    [hasCustomDataField] and [query], and it leaves every search that
    reaches this object: the search that starts at it, the loop on any
    host whenever this object is at the front of the queue, and on a host
    that shows a tree every search in which the objects before it in
    breadth-first order have all tested [false].  No caller on the lookup
    path catches it. *)
Theorem format_error_escapes_lookup (h : Host) (obj field : Z) :
  0 < simGetObjectCustomDataLength h obj DATA_ID ->
  parseCustomData
    (customDataBuffer h obj (simGetObjectCustomDataLength h obj DATA_ID))
  = Throw format_error ->
  hasCustomDataField h obj field = Throw format_error
  /\ query h obj = Throw format_error
  /\ (forall fuel : nat,
        searchCustomDataField h (S fuel) obj field = Throw format_error)
  /\ (forall (fuel : nat) (rest P : list Z),
        searchLoop h (S fuel) field {| items := obj :: rest; pushed := P |}
        = (Throw format_error, P))
  /\ (forall (t : tree) (pre post : list Z) (fuel : nat),
        representsb h t = true ->
        (size t < fuel)%nat ->
        bfs_order t = pre ++ obj :: post ->
        Forall (fun o => hasCustomDataField h o field = Ret false) pre ->
        searchCustomDataField h fuel (root t) field = Throw format_error).
Proof.
  intros Hsize Hparse.
  pose proof (hasCustomDataField_throws h obj field _ Hsize Hparse) as Hhas.
  split; [exact Hhas|]. split; [|split; [|split]].
  - apply hasCustomDataField_throws; assumption.
  - intros fuel. unfold searchCustomDataField, searchTrace.
    cbn [searchLoop push_back items deque_empty app pushed].
    rewrite Hhas. reflexivity.
  - intros fuel rest P. cbn [searchLoop items pushed].
    rewrite Hhas. reflexivity.
  - intros t pre post fuel Hrep Hfuel Horder Hpre.
    unfold searchCustomDataField.
    rewrite (searchTrace_exact h t field fuel Hrep Hfuel). cbn [fst].
    rewrite Horder, first_hit_app by exact Hpre.
    cbn [first_hit]. rewrite Hhas. reflexivity.
Qed.

Lemma format_error_escapes_lookup_witness :
  hasCustomDataField malformed_scene 3 FIELD_BODY = Throw format_error
  /\ searchCustomDataField malformed_scene 1 3 FIELD_BODY = Throw format_error
  /\ searchCustomDataField malformed_scene 5 1 FIELD_BODY = Throw format_error.
Proof.
  destruct (format_error_escapes_lookup malformed_scene 3 FIELD_BODY)
    as (Hhas & _ & Hroot & _ & Hreach).
  - vm_compute. reflexivity.
  - vm_compute. reflexivity.
  - split; [exact Hhas|]. split; [exact (Hroot 0%nat)|].
    apply (Hreach malformed_tree [1; 2] [4] 5%nat).
    + reflexivity.
    + simpl. lia.
    + reflexivity.
    + repeat constructor.
Defined.

(** C10: on a host that shows a finite tree (finite child lists, no
    cycle) the search ends: any fuel above the number of objects gives the
    same outcome, that of the first test in breadth-first order that is
    not [false], which is never the out-of-fuel outcome.  What was
    enqueued is the root and the children of the objects tested [false]:
    an initial part of the breadth-first order, which lists every object
    of the tree once, so every object is enqueued at most once for its
    place in the tree.  When no test stops the loop the queue is
    exhausted: every object has been enqueued and dequeued and the search
    returns -1; and the search returns -1 in no other way. *)
Theorem searchCustomDataField_terminates (h : Host) (t : tree) (field : Z) :
  representsb h t = true ->
  exists (r : res Z) (log : list Z),
    (forall fuel : nat,
       (size t < fuel)%nat -> searchTrace h fuel (root t) field = (r, log))
    /\ r = first_hit h field (bfs_order t)
    /\ log = enqueued t (tested_false h field (bfs_trees [t]))
    /\ r <> OutOfFuel
    /\ log `prefix_of` bfs_order t
    /\ (length log <= size t)%nat
    /\ Permutation (bfs_order t) (objects t)
    /\ (Forall (fun o => hasCustomDataField h o field = Ret false)
          (bfs_order t) ->
        r = Ret (-1) /\ log = bfs_order t)
    /\ (r = Ret (-1) -> log = bfs_order t).
Proof.
  intros Hrep.
  pose proof (enqueued_prefix h t field Hrep) as Hpre.
  destruct (bfs_order_objects t) as [Hperm Hlen].
  exists (first_hit h field (bfs_order t)),
         (enqueued t (tested_false h field (bfs_trees [t]))).
  split; [intros fuel Hfuel; apply searchTrace_exact; assumption|].
  split; [reflexivity|]. split; [reflexivity|].
  split; [apply first_hit_ends|]. split; [exact Hpre|].
  split; [rewrite <- Hlen; apply prefix_length; exact Hpre|].
  split; [exact Hperm|]. split.
  - intros Hall. split; [apply first_hit_none; exact Hall|].
    apply (enqueued_all h); assumption.
  - intros Hret. apply (enqueued_all h); [exact Hrep|].
    apply first_hit_absent; [|exact Hret].
    apply (bfs_forest_handles h). cbn [forallb]. rewrite Hrep. reflexivity.
Qed.

Lemma searchCustomDataField_terminates_witness :
  exists (r : res Z) (log : list Z),
    (forall fuel : nat,
       (size example_tree < fuel)%nat ->
       searchTrace example_scene fuel (root example_tree) FIELD_TARGET
       = (r, log))
    /\ r = first_hit example_scene FIELD_TARGET (bfs_order example_tree)
    /\ log = enqueued example_tree
               (tested_false example_scene FIELD_TARGET
                  (bfs_trees [example_tree]))
    /\ r <> OutOfFuel
    /\ log `prefix_of` bfs_order example_tree
    /\ (length log <= size example_tree)%nat
    /\ Permutation (bfs_order example_tree) (objects example_tree)
    /\ (Forall (fun o => hasCustomDataField example_scene o FIELD_TARGET
                         = Ret false)
          (bfs_order example_tree) ->
        r = Ret (-1) /\ log = bfs_order example_tree)
    /\ (r = Ret (-1) -> log = bfs_order example_tree).
Proof.
  exact (searchCustomDataField_terminates example_scene example_tree
           FIELD_TARGET eq_refl).
Defined.

Example ctor_example :
  exists log,
    Quadcopter_ctor quadcopter_scene example_uid example_name 8 1
    = Ret ({| m_obj := 1; m_uniqueID := 1001; m_body := 2; m_target := 3;
              m_cameraDown := -1; m_cameraFront := -1;
              m_motors := [4; 5; 6; 7] |}, log)
    /\ length log = 26%nat
    /\ nth 1 log (Stderr EmptyString) = Stderr "Quadcopter:  id 1".
Proof. eexists. split; [vm_compute; reflexivity|]. split; reflexivity. Qed.

(** * Further properties *)

(** ** Little-endian integers *)

Lemma byte_to_Z_range (b : Byte.byte) : 0 <= byte_to_Z b < 256.
Proof.
  unfold byte_to_Z. pose proof (Byte.to_N_bounded b). lia.
Qed.

Lemma byte_to_of_Z (z : Z) : byte_to_Z (byte_of_Z z) = z mod 256.
Proof.
  unfold byte_of_Z, byte_to_Z.
  pose proof (Z.mod_pos_bound z 256 ltac:(lia)) as Hmod.
  pose proof (Byte.to_of_N_option_map (Z.to_N (z mod 256))) as Hopt.
  destruct (Byte.of_N (Z.to_N (z mod 256))) as [b|] eqn:Hb; simpl in Hopt.
  - destruct (N.leb_spec (Z.to_N (z mod 256)) 255); [|discriminate].
    injection Hopt as ->. lia.
  - destruct (N.leb_spec (Z.to_N (z mod 256)) 255); [discriminate | lia].
Qed.

Lemma byte_of_to_Z (b : Byte.byte) : byte_of_Z (byte_to_Z b) = b.
Proof.
  unfold byte_of_Z. rewrite Z.mod_small by apply byte_to_Z_range.
  unfold byte_to_Z. rewrite N2Z.id, Byte.of_to_N. reflexivity.
Qed.

(** Bits that do not overlap: [|] is [+]. *)
Lemma lor_disjoint (a c n : Z) :
  0 <= n -> 0 <= a < 2 ^ n -> Z.lor a (c * 2 ^ n) = a + c * 2 ^ n.
Proof.
  intros Hn Ha. symmetry. apply Z.add_nocarry_lor.
  apply Z.bits_inj_0. intros m. rewrite Z.land_spec.
  destruct (Z.lt_ge_cases m n) as [Hlt|Hge].
  - rewrite <- Z.shiftl_mul_pow2 by exact Hn.
    rewrite Z.shiftl_spec_low by exact Hlt. apply andb_false_r.
  - destruct (Z.eq_dec a 0) as [->|Hnz]; [rewrite Z.bits_0; reflexivity|].
    rewrite (Z.bits_above_log2 a m); [reflexivity | lia |].
    apply Z.lt_le_trans with n; [|exact Hge].
    apply Z.log2_lt_pow2; lia.
Qed.

Lemma parseUint32_sum (b0 b1 b2 b3 : Byte.byte) (p : byte_vector) :
  parseUint32 (b0 :: b1 :: b2 :: b3 :: p)
  = Ret (byte_to_Z b0 + 256 * byte_to_Z b1 + 65536 * byte_to_Z b2
         + 16777216 * byte_to_Z b3, p).
Proof.
  cbn [parseUint32].
  pose proof (byte_to_Z_range b0). pose proof (byte_to_Z_range b1).
  pose proof (byte_to_Z_range b2). pose proof (byte_to_Z_range b3).
  rewrite !Z.shiftl_mul_pow2 by lia.
  change (2 ^ 0) with 1. change (2 ^ 8) with 256.
  change (2 ^ 16) with 65536. change (2 ^ 24) with 16777216.
  replace (byte_to_Z b3 * 16777216) with (byte_to_Z b3 * 2 ^ 24) by lia.
  rewrite (lor_disjoint (byte_to_Z b2 * 65536)) by lia.
  replace (byte_to_Z b2 * 65536 + byte_to_Z b3 * 2 ^ 24)
    with ((byte_to_Z b2 + 256 * byte_to_Z b3) * 2 ^ 16) by lia.
  rewrite (lor_disjoint (byte_to_Z b1 * 256)) by lia.
  replace (byte_to_Z b1 * 256 + (byte_to_Z b2 + 256 * byte_to_Z b3) * 2 ^ 16)
    with ((byte_to_Z b1 + 256 * byte_to_Z b2 + 65536 * byte_to_Z b3) * 2 ^ 8)
    by lia.
  rewrite (lor_disjoint (byte_to_Z b0 * 1)) by lia.
  f_equal. f_equal. lia.
Qed.

Lemma parseUint32_le32 (v : Z) (p : byte_vector) :
  0 <= v < 2 ^ 32 -> parseUint32 (le32 v ++ p) = Ret (v, p).
Proof.
  intros Hv. unfold le32. cbn [app]. rewrite parseUint32_sum.
  rewrite !byte_to_of_Z. f_equal. f_equal.
  change (2 ^ 32) with 4294967296 in Hv.
  Z.div_mod_to_equations. lia.
Qed.

Lemma le32_bytes (b0 b1 b2 b3 : Byte.byte) :
  let v := byte_to_Z b0 + 256 * byte_to_Z b1 + 65536 * byte_to_Z b2
           + 16777216 * byte_to_Z b3 in
  0 <= v < 2 ^ 32 /\ le32 v = [b0; b1; b2; b3].
Proof.
  intros v.
  pose proof (byte_to_Z_range b0). pose proof (byte_to_Z_range b1).
  pose proof (byte_to_Z_range b2). pose proof (byte_to_Z_range b3).
  change (2 ^ 32) with 4294967296.
  split; [subst v; lia|].
  assert (Hbyte : forall x y, x mod 256 = y mod 256 -> byte_of_Z x = byte_of_Z y).
  { intros x y Hxy. unfold byte_of_Z. rewrite Hxy. reflexivity. }
  transitivity [byte_of_Z (byte_to_Z b0); byte_of_Z (byte_to_Z b1);
                byte_of_Z (byte_to_Z b2); byte_of_Z (byte_to_Z b3)];
    [|rewrite !byte_of_to_Z; reflexivity].
  unfold le32.
  rewrite (Hbyte v (byte_to_Z b0)),
    (Hbyte (v / 256) (byte_to_Z b1)),
    (Hbyte (v / 65536) (byte_to_Z b2)),
    (Hbyte (v / 16777216) (byte_to_Z b3));
    [reflexivity | ..]; subst v; Z.div_mod_to_equations; lia.
Qed.

(** Whatever [parseUint32] returns was written as [le32] of it. *)
Lemma parseUint32_inv (p p1 : byte_vector) (v : Z) :
  parseUint32 p = Ret (v, p1) -> 0 <= v < 2 ^ 32 /\ p = le32 v ++ p1.
Proof.
  intros Hparse.
  destruct p as [|b0 [|b1 [|b2 [|b3 p']]]]; try discriminate.
  rewrite parseUint32_sum in Hparse. injection Hparse as <- <-.
  destruct (le32_bytes b0 b1 b2 b3) as [Hrange Hbytes].
  split; [exact Hrange|]. rewrite Hbytes. reflexivity.
Qed.

(** X1: [parseUint32] reads four bytes as the little-endian number
    b0 + 2^8 b1 + 2^16 b2 + 2^24 b3, which is below 2^32, and leaves the
    iterator behind them; the four bytes are recovered from the number, so
    every number below 2^32 is read from exactly one group of four bytes. *)
Theorem parseUint32_little_endian
    (b0 b1 b2 b3 : Byte.byte) (p : byte_vector) :
  let v := byte_to_Z b0 + 256 * byte_to_Z b1 + 65536 * byte_to_Z b2
           + 16777216 * byte_to_Z b3 in
  parseUint32 (b0 :: b1 :: b2 :: b3 :: p) = Ret (v, p)
  /\ 0 <= v < 2 ^ 32
  /\ le32 v = [b0; b1; b2; b3]
  /\ (forall w : Z, 0 <= w < 2 ^ 32 -> parseUint32 (le32 w ++ p) = Ret (w, p)).
Proof.
  intros v. split; [apply parseUint32_sum|].
  destruct (le32_bytes b0 b1 b2 b3) as [Hrange Hbytes].
  split; [exact Hrange|]. split; [exact Hbytes|].
  intros w Hw. apply parseUint32_le32. exact Hw.
Qed.

(** ** Decoding whole buffers *)

Lemma parseLoop_fuel (fuel1 : nat) :
  forall (fuel2 : nat) (p : byte_vector) (m : CustomData),
    (length p < fuel1)%nat -> (length p < fuel2)%nat ->
    parseLoop fuel1 p m = parseLoop fuel2 p m.
Proof.
  induction fuel1 as [|fuel1 IH]; intros fuel2 p m H1 H2; [lia|].
  destruct fuel2 as [|fuel2]; [lia|].
  destruct p as [|b0 p0]; [reflexivity|].
  cbn [parseLoop].
  destruct (parseUint32_cases (b0 :: p0)) as [[_ ->]|[Hl1 [id ->]]];
    [reflexivity|].
  cbn [mbind res_bind].
  destruct (parseUint32_cases (drop 4 (b0 :: p0))) as [[_ ->]|[Hl2 [len ->]]];
    [reflexivity|].
  cbn [mbind res_bind].
  destruct (Z.of_nat (length (drop 4 (drop 4 (b0 :: p0)))) <? len);
    [reflexivity|].
  apply IH; rewrite !length_drop in *; lia.
Qed.

(** One iteration of the loop on a buffer that starts with two integers. *)
Lemma parseLoop_entry (fuel : nat) (p p1 p2 : byte_vector) (id len : Z)
    (m : CustomData) :
  parseUint32 p = Ret (id, p1) ->
  parseUint32 p1 = Ret (len, p2) ->
  parseLoop (S fuel) p m
  = if Z.of_nat (length p2) <? len then Undefined
    else parseLoop fuel (drop (Z.to_nat len) p2)
           (<[id := take (Z.to_nat len) p2]> m).
Proof.
  intros E1 E2. destruct p as [|b0 p0]; [discriminate|].
  cbn [parseLoop]. rewrite E1. cbn [mbind res_bind]. rewrite E2. reflexivity.
Qed.

Lemma length_le32 (v : Z) : length (le32 v) = 4%nat.
Proof. reflexivity. Qed.

Lemma length_wire_entry (e : Z * byte_vector) :
  length (wire_entry e) = (8 + length (snd e))%nat.
Proof. unfold wire_entry. rewrite !length_app, !length_le32. lia. Qed.

(** The loop consumes well-formed entries one by one and goes on with what
    follows them. *)
Lemma parseLoop_wire (es : list (Z * byte_vector)) :
  forall (m : CustomData) (tail : byte_vector) (fuel : nat),
    Forall fits32 es ->
    (length (wire es ++ tail) < fuel)%nat ->
    parseLoop fuel (wire es ++ tail) m
    = parseLoop (S (length tail)) tail (decoded_from m es).
Proof.
  induction es as [|[id pl] es IH]; intros m tail fuel Hfit Hfuel.
  - apply parseLoop_fuel; [exact Hfuel | lia].
  - inversion Hfit as [|? ? [Hid Hlen] Hfit']; subst. cbn [fst snd] in *.
    destruct fuel as [|fuel]; [lia|].
    cbn [wire flat_map] in *. fold (wire es) in *.
    unfold wire_entry in *. cbn [fst snd] in *.
    rewrite <- !app_assoc in *.
    rewrite (parseLoop_entry fuel _ _ _ id (Z.of_nat (length pl)) m
               (parseUint32_le32 id _ Hid)
               (parseUint32_le32 (Z.of_nat (length pl)) _
                  ltac:(split; [lia | exact Hlen]))).
    rewrite length_app.
    destruct (Z.ltb_spec (Z.of_nat (length pl + length (wire es ++ tail)))
                (Z.of_nat (length pl))) as [Hlt|_]; [lia|].
    rewrite Nat2Z.id, drop_app_length, take_app_length.
    rewrite IH; [reflexivity | exact Hfit' |].
    rewrite !length_app, !length_le32 in Hfuel. rewrite length_app. lia.
Qed.

Lemma decoded_from_lookup (es : list (Z * byte_vector)) :
  forall (m : CustomData) (id : Z),
    is_Some (decoded_from m es !! id) <-> id ∈ es.*1 \/ is_Some (m !! id).
Proof.
  induction es as [|[i pl] es IH]; intros m id.
  - cbn. rewrite elem_of_nil. tauto.
  - change (decoded_from m ((i, pl) :: es))
      with (decoded_from (<[i:=pl]> m) es).
    rewrite IH, fmap_cons, elem_of_cons, lookup_insert_is_Some. cbn [fst].
    destruct (decide (i = id)) as [->|Hne]; intuition congruence.
Qed.

(** The last entry of an id decides. *)
Lemma decoded_from_last (es : list (Z * byte_vector)) :
  forall (m : CustomData) (id : Z) (pl : byte_vector),
    id ∉ es.*1 -> decoded_from (<[id:=pl]> m) es !! id = Some pl.
Proof.
  induction es as [|[i q] es IH]; intros m id pl Hnotin.
  - cbn. apply lookup_insert_eq.
  - rewrite fmap_cons, not_elem_of_cons in Hnotin. cbn [fst] in Hnotin.
    destruct Hnotin as [Hne Hnotin].
    change (decoded_from (<[id:=pl]> m) ((i, q) :: es))
      with (decoded_from (<[i:=q]> (<[id:=pl]> m)) es).
    rewrite insert_insert_ne by congruence.
    apply IH. exact Hnotin.
Qed.

Lemma decoded_from_app (es1 es2 : list (Z * byte_vector)) (m : CustomData) :
  decoded_from m (es1 ++ es2) = decoded_from (decoded_from m es1) es2.
Proof. unfold decoded_from. apply foldl_app. Qed.

Lemma decoded_from_unique (es : list (Z * byte_vector)) :
  forall m : CustomData,
    NoDup es.*1 ->
    decoded_from m es = list_to_map es ∪ m.
Proof.
  induction es as [|[i pl] es IH]; intros m Hnd.
  - cbn. rewrite (left_id_L ∅ (∪)). reflexivity.
  - change (decoded_from m ((i, pl) :: es))
      with (decoded_from (<[i:=pl]> m) es).
    rewrite fmap_cons in Hnd. apply NoDup_cons in Hnd as [Hnotin Hnd].
    rewrite IH by exact Hnd. rewrite list_to_map_cons.
    rewrite <- insert_union_l.
    symmetry. apply insert_union_r.
    apply not_elem_of_list_to_map_1. exact Hnotin.
Qed.

(** X2: a buffer made of entries (id, length, payload) back to back, ids
    and lengths below 2^32, decodes to the map that holds, for every id of
    the buffer and no other, the payload of its last entry; with ids that
    are all different this is the map of the entries. *)
Theorem parseCustomData_wire (es : list (Z * byte_vector)) :
  Forall fits32 es ->
  parseCustomData (wire es) = Ret (decoded es)
  /\ (forall id : Z, is_Some (decoded es !! id) <-> id ∈ es.*1)
  /\ (forall (es1 es2 : list (Z * byte_vector)) (id : Z) (pl : byte_vector),
        es = es1 ++ (id, pl) :: es2 -> id ∉ es2.*1 ->
        decoded es !! id = Some pl)
  /\ (NoDup es.*1 -> decoded es = list_to_map es).
Proof.
  intros Hfit. split; [|split; [|split]].
  - unfold parseCustomData.
    rewrite <- (app_nil_r (wire es)) at 2.
    rewrite (parseLoop_wire es ∅ [] _ Hfit) by (rewrite app_nil_r; lia).
    reflexivity.
  - intros id. unfold decoded. rewrite decoded_from_lookup.
    rewrite lookup_empty, is_Some_alt. tauto.
  - intros es1 es2 id pl -> Hnotin. unfold decoded.
    rewrite decoded_from_app.
    change (decoded_from (decoded_from ∅ es1) ((id, pl) :: es2))
      with (decoded_from (<[id:=pl]> (decoded_from ∅ es1)) es2).
    apply decoded_from_last. exact Hnotin.
  - intros Hnd. unfold decoded. rewrite decoded_from_unique by exact Hnd.
    apply (right_id_L ∅ (∪)).
Qed.

(** A buffer that decodes is a sequence of entries. *)
Lemma parseLoop_ret (fuel : nat) :
  forall (p : byte_vector) (m0 m : CustomData),
    parseLoop fuel p m0 = Ret m ->
    exists es : list (Z * byte_vector),
      Forall fits32 es /\ p = wire es /\ m = decoded_from m0 es.
Proof.
  induction fuel as [|fuel IH]; intros p m0 m Hparse; [discriminate|].
  destruct p as [|b0 p0].
  - injection Hparse as <-. exists []. repeat split. constructor.
  - cbn [parseLoop] in Hparse.
    destruct (parseUint32 (b0 :: p0)) as [[id p1]| | |] eqn:E1;
      try discriminate.
    cbn [mbind res_bind] in Hparse.
    destruct (parseUint32 p1) as [[len p2]| | |] eqn:E2; try discriminate.
    cbn [mbind res_bind] in Hparse.
    destruct (Z.ltb_spec (Z.of_nat (length p2)) len) as [|Hlen];
      [discriminate|].
    apply parseUint32_inv in E1 as [Hid ->].
    apply parseUint32_inv in E2 as [Hl ->].
    destruct (IH _ _ _ Hparse) as (es & Hfit & Hrest & ->).
    assert (Htake : Z.of_nat (length (take (Z.to_nat len) p2)) = len).
    { rewrite length_take_le by lia. lia. }
    exists ((id, take (Z.to_nat len) p2) :: es).
    split; [|split; [|reflexivity]].
    + constructor; [|exact Hfit]. split; cbn [fst snd]; [exact Hid | lia].
    + cbn [wire flat_map]. fold (wire es). unfold wire_entry. cbn [fst snd].
      rewrite Htake, <- Hrest, <- !app_assoc, take_drop. reflexivity.
Qed.

(** X3: the decoder returns a map exactly for the buffers that are a
    sequence of entries (id, length, payload) with nothing left over, and
    the map is the one of these entries. *)
Theorem parseCustomData_ret_iff (buf : byte_vector) (m : CustomData) :
  parseCustomData buf = Ret m
  <-> exists es : list (Z * byte_vector),
        Forall fits32 es /\ buf = wire es /\ m = decoded es.
Proof.
  split.
  - intros Hparse. apply (parseLoop_ret _ _ _ _ Hparse).
  - intros (es & Hfit & -> & ->). unfold parseCustomData.
    rewrite <- (app_nil_r (wire es)) at 2.
    rewrite (parseLoop_wire es ∅ [] _ Hfit) by (rewrite app_nil_r; lia).
    reflexivity.
Qed.

Lemma parseLoop_outcomes (fuel : nat) :
  forall (p : byte_vector) (m0 : CustomData),
    (length p < fuel)%nat ->
    parseLoop fuel p m0 = Throw format_error
    \/ parseLoop fuel p m0 = Undefined
    \/ exists m, parseLoop fuel p m0 = Ret m.
Proof.
  induction fuel as [|fuel IH]; intros p m0 Hlen; [lia|].
  destruct p as [|b0 p0]; [right; right; eexists; reflexivity|].
  cbn [parseLoop].
  destruct (parseUint32_cases (b0 :: p0)) as [[_ ->]|[Hl1 [id ->]]];
    [left; reflexivity|].
  cbn [mbind res_bind].
  destruct (parseUint32_cases (drop 4 (b0 :: p0))) as [[_ ->]|[Hl2 [len ->]]];
    [left; reflexivity|].
  cbn [mbind res_bind].
  destruct (Z.of_nat (length (drop 4 (drop 4 (b0 :: p0)))) <? len);
    [right; left; reflexivity|].
  apply IH. rewrite !length_drop in *. lia.
Qed.

(** X4: appending anything to well-formed entries does not protect them:
    the decoder goes on with the rest, and a rest that is the beginning of
    one more entry, cut anywhere inside it, makes the whole decoding fail;
    the format error is thrown when the cut is inside the eight bytes of
    id and length, and the payload copy runs past the end of the buffer
    when the cut is inside the payload.  No map is returned for the
    entries before the cut. *)
Theorem parseCustomData_cut_entry
    (es : list (Z * byte_vector)) (e : Z * byte_vector) (k : nat) :
  Forall fits32 es -> fits32 e ->
  (0 < k < length (wire_entry e))%nat ->
  parseCustomData (wire es ++ take k (wire_entry e))
  = if (k <? 8)%nat then Throw format_error else Undefined.
Proof.
  intros Hfit [Hid Hlen] Hk. unfold parseCustomData.
  rewrite (parseLoop_wire es ∅ _ _ Hfit) by lia.
  rewrite length_wire_entry in Hk.
  destruct (Nat.ltb_spec k 8) as [Hlt|Hge].
  - apply parseLoop_truncated_integer.
    rewrite length_take_le by (rewrite length_wire_entry; lia). lia.
  - destruct e as [id pl]. unfold wire_entry. cbn [fst snd] in *.
    replace (take k (le32 id ++ le32 (Z.of_nat (length pl)) ++ pl))
      with (le32 id ++ le32 (Z.of_nat (length pl)) ++ take (k - 8) pl).
    2: { symmetry. rewrite app_assoc, take_app.
         rewrite take_ge by (rewrite length_app, !length_le32; lia).
         rewrite length_app, !length_le32, <- app_assoc. reflexivity. }
    rewrite (parseLoop_entry _ _ _ _ id (Z.of_nat (length pl)) _
               (parseUint32_le32 id _ Hid)
               (parseUint32_le32 (Z.of_nat (length pl)) _
                  ltac:(split; [lia | exact Hlen]))).
    rewrite length_take_le by lia.
    destruct (Z.ltb_spec (Z.of_nat (k - 8)) (Z.of_nat (length pl)));
      [reflexivity | lia].
Qed.

Lemma parseCustomData_cut_entry_witness :
  parseCustomData
    (wire [(7, [Byte.x01])] ++ take 5 (wire_entry (8, [Byte.x02; Byte.x03])))
  = Throw format_error
  /\ parseCustomData
       (wire [(7, [Byte.x01])] ++ take 9 (wire_entry (8, [Byte.x02; Byte.x03])))
     = Undefined.
Proof.
  split.
  - apply (parseCustomData_cut_entry [(7, [Byte.x01])]
             (8, [Byte.x02; Byte.x03]) 5).
    + repeat constructor; cbn; lia.
    + split; cbn; lia.
    + cbn; lia.
  - apply (parseCustomData_cut_entry [(7, [Byte.x01])]
             (8, [Byte.x02; Byte.x03]) 9).
    + repeat constructor; cbn; lia.
    + split; cbn; lia.
    + cbn; lia.
Defined.

(** X5: the decoder always ends, and in one of three ways: it returns a
    map, it throws the format error (never another exception), or it reads
    past the end of the buffer.  The empty buffer gives the empty map. *)
Theorem parseCustomData_outcomes (buf : byte_vector) :
  (parseCustomData buf = Throw format_error
   \/ parseCustomData buf = Undefined
   \/ exists m, parseCustomData buf = Ret m)
  /\ parseCustomData buf <> OutOfFuel
  /\ parseCustomData [] = Ret ∅.
Proof.
  split; [apply parseLoop_outcomes; lia|].
  split; [apply parseCustomData_total | reflexivity].
Qed.

(** ** Membership on well-formed data *)

Lemma wire_nil (es : list (Z * byte_vector)) : wire es = [] -> es = [].
Proof.
  destruct es as [|e es]; [reflexivity|].
  intros Hnil. apply (f_equal length) in Hnil.
  cbn [wire flat_map] in Hnil. rewrite length_app, length_wire_entry in Hnil.
  simpl in Hnil. lia.
Qed.

(** X6: when the custom data of an object is a sequence of entries and the
    host reports its true length, [hasCustomDataField] returns whether the
    field is the id of one of the entries, whatever the payloads are; for
    an object without data (no entry) this is [false]. *)
Theorem hasCustomDataField_wire
    (h : Host) (obj field : Z) (es : list (Z * byte_vector)) :
  Forall fits32 es ->
  simGetObjectCustomData h obj DATA_ID = wire es ->
  simGetObjectCustomDataLength h obj DATA_ID = Z.of_nat (length (wire es)) ->
  hasCustomDataField h obj field = Ret (bool_decide (field ∈ es.*1)).
Proof.
  intros Hfit Hdata Hsize. unfold hasCustomDataField. rewrite Hsize.
  destruct (Z.leb_spec (Z.of_nat (length (wire es))) 0) as [Hle|Hgt].
  - assert (Hnil : es = []).
    { apply wire_nil. apply length_zero_iff_nil. lia. }
    subst es. reflexivity.
  - unfold customDataBuffer. rewrite Hdata, Nat2Z.id, take_app_length.
    unfold parseCustomData.
    rewrite <- (app_nil_r (wire es)) at 2.
    rewrite (parseLoop_wire es ∅ [] _ Hfit) by (rewrite app_nil_r; lia).
    cbn [parseLoop mbind res_bind]. f_equal.
    apply bool_decide_ext. fold (decoded es).
    unfold decoded. rewrite decoded_from_lookup, lookup_empty, is_Some_alt.
    tauto.
Qed.

Lemma hasCustomDataField_wire_witness :
  hasCustomDataField example_scene 4 FIELD_BODY = Ret true
  /\ hasCustomDataField example_scene 4 FIELD_TARGET = Ret false
  /\ hasCustomDataField example_scene 5 FIELD_BODY = Ret false.
Proof.
  split; [|split].
  - apply (hasCustomDataField_wire example_scene 4 FIELD_BODY
             [(7, [Byte.xff])]); [|reflexivity|reflexivity].
    repeat constructor; cbn; lia.
  - apply (hasCustomDataField_wire example_scene 4 FIELD_TARGET
             [(7, [Byte.xff])]); [|reflexivity|reflexivity].
    repeat constructor; cbn; lia.
  - apply (hasCustomDataField_wire example_scene 5 FIELD_BODY []);
      [constructor|reflexivity|reflexivity].
Defined.

(** How the membership test ends does not depend on the field. *)
Lemma hasCustomDataField_any_field (h : Host) (obj f1 f2 : Z) :
  match hasCustomDataField h obj f1 with
  | Ret _ => exists b, hasCustomDataField h obj f2 = Ret b
  | Throw e => hasCustomDataField h obj f2 = Throw e
  | Undefined => hasCustomDataField h obj f2 = Undefined
  | OutOfFuel => hasCustomDataField h obj f2 = OutOfFuel
  end.
Proof.
  unfold hasCustomDataField.
  destruct (simGetObjectCustomDataLength h obj DATA_ID <=? 0);
    [eexists; reflexivity|].
  destruct (parseCustomData _); cbn [mbind res_bind];
    [eexists|..]; reflexivity.
Qed.

Lemma decodes_any_field (h : Host) (obj f1 f2 : Z) :
  decodes h f1 obj = decodes h f2 obj.
Proof.
  unfold decodes. pose proof (hasCustomDataField_any_field h obj f1 f2) as H.
  destruct (hasCustomDataField h obj f1); [destruct H as [b ->]|..];
    try rewrite H; reflexivity.
Qed.

(** ** The search on any host *)

(** What the search returns carries the field, unless it is -1. *)
Lemma searchLoop_sound (h : Host) (field : Z) (fuel : nat) :
  forall (q : deque) (obj : Z) (log : list Z),
    searchLoop h fuel field q = (Ret obj, log) ->
    obj = -1 \/ hasCustomDataField h obj field = Ret true.
Proof.
  induction fuel as [|fuel IH]; intros q obj log Hrun; [discriminate|].
  cbn [searchLoop] in Hrun.
  destruct (items q) as [|x rest]; [injection Hrun as <- _; left; reflexivity|].
  destruct (hasCustomDataField h x field) as [[|]|e| |] eqn:Htest;
    try discriminate.
  - injection Hrun as <- _. right. exact Htest.
  - destruct (enqueueChildren h fuel x 0 _) as [q'|e| |]; try discriminate.
    apply (IH _ _ _ Hrun).
Qed.

(** X7: on any host, cyclic or not, an object that the search returns
    carries the field: the result is -1 or an object on which the
    membership test returns [true]. *)
Theorem searchCustomDataField_sound
    (h : Host) (fuel : nat) (root field obj : Z) :
  searchCustomDataField h fuel root field = Ret obj ->
  obj = -1 \/ hasCustomDataField h obj field = Ret true.
Proof.
  unfold searchCustomDataField, searchTrace. intros Hrun.
  destruct (searchLoop h fuel field (push_back deque_empty root))
    as [r log] eqn:Hloop.
  cbn [fst] in Hrun. subst r. apply (searchLoop_sound _ _ _ _ _ _ Hloop).
Qed.

Lemma searchCustomDataField_sound_witness :
  3 = -1 \/ hasCustomDataField example_scene 3 FIELD_BODY = Ret true.
Proof.
  apply (searchCustomDataField_sound example_scene 8 1 FIELD_BODY 3).
  vm_compute. reflexivity.
Defined.

(** X8: when the root itself carries the field the search returns it at
    the first test, with one unit of fuel, without asking for any child:
    nothing but the root was ever enqueued.  This holds on any host. *)
Theorem searchCustomDataField_root
    (h : Host) (fuel : nat) (root field : Z) :
  hasCustomDataField h root field = Ret true ->
  searchTrace h (S fuel) root field = (Ret root, [root])
  /\ searchCustomDataField h (S fuel) root field = Ret root.
Proof.
  intros Htest. unfold searchCustomDataField, searchTrace.
  cbn [searchLoop push_back deque_empty items pushed app].
  rewrite Htest. split; reflexivity.
Qed.

Lemma searchCustomDataField_root_witness :
  searchTrace quadcopter_scene 1 1 FIELD_QUADCOPTER = (Ret 1, [1])
  /\ searchCustomDataField quadcopter_scene 1 1 FIELD_QUADCOPTER = Ret 1.
Proof.
  apply (searchCustomDataField_root quadcopter_scene 0 1 FIELD_QUADCOPTER).
  vm_compute. reflexivity.
Defined.

(** The inner loop only returns a queue or runs out of fuel. *)
Lemma enqueueChildren_outcomes (h : Host) (obj : Z) (fuel : nat) :
  forall (i : Z) (q : deque),
    enqueueChildren h fuel obj i q = OutOfFuel
    \/ exists l : list Z,
         enqueueChildren h fuel obj i q = Ret (push_all q l)
         /\ Forall (fun c => exists j, c = simGetObjectChild h obj j /\ c <> -1) l
         /\ (simGetObjectChild h obj i <> -1 -> l <> []).
Proof.
  induction fuel as [|fuel IH]; intros i q; [left; reflexivity|].
  cbn [enqueueChildren].
  destruct (Z.eqb_spec (simGetObjectChild h obj i) (-1)) as [Heq|Hne].
  - right. exists []. split; [|split; [constructor | congruence]].
    destruct q. unfold push_all. cbn [items pushed].
    rewrite !app_nil_r. reflexivity.
  - destruct (IH (i + 1) (push_back q (simGetObjectChild h obj i)))
      as [->|(l & -> & Hall & _)]; [left; reflexivity|].
    right. exists (simGetObjectChild h obj i :: l).
    split; [|split; [|discriminate]].
    + unfold push_all, push_back. cbn [items pushed].
      rewrite <- !app_assoc. reflexivity.
    + constructor; [eauto | exact Hall].
Qed.

(** A queue of objects that all have a child and never carry the field
    is never exhausted. *)
Lemma searchLoop_never_ends
    (h : Host) (field : Z) (P : Z -> Prop) (fuel : nat) :
  (forall o, P o -> hasCustomDataField h o field = Ret false) ->
  (forall o, P o -> simGetObjectChild h o 0 <> -1) ->
  (forall o i, P o -> simGetObjectChild h o i <> -1 ->
               P (simGetObjectChild h o i)) ->
  forall q : deque,
    items q <> [] -> Forall P (items q) ->
    fst (searchLoop h fuel field q) = OutOfFuel.
Proof.
  intros Hfalse Hchild Hclosed.
  induction fuel as [|fuel IH]; intros q Hne Hall; [reflexivity|].
  cbn [searchLoop].
  destruct (items q) as [|x rest] eqn:Hitems; [congruence|].
  inversion Hall as [|? ? Hx Hrest]; subst.
  rewrite (Hfalse x Hx).
  destruct (enqueueChildren_outcomes h x fuel 0
              {| items := rest; pushed := pushed q |})
    as [->|(l & -> & Hl & Hnonempty)]; [reflexivity|].
  apply IH; unfold push_all; cbn [items].
  - specialize (Hnonempty (Hchild x Hx)).
    destruct l; [congruence|]. destruct rest; discriminate.
  - apply Forall_app. split; [exact Hrest|].
    eapply Forall_impl; [exact Hl|].
    intros c (j & -> & Hc). apply Hclosed; assumption.
Qed.

(** X10: the search detects no cycle.  When the root belongs to a set of
    objects that is closed under the children the host enumerates, each
    of which has a first child and none of which carries the field (an
    object that is its own child, for instance), the loop is still
    running after any number of iterations: it never returns and never
    throws. *)
Theorem searchCustomDataField_no_cycle_detection
    (h : Host) (field root : Z) (P : Z -> Prop) :
  P root ->
  (forall o, P o -> hasCustomDataField h o field = Ret false) ->
  (forall o, P o -> simGetObjectChild h o 0 <> -1) ->
  (forall o i, P o -> simGetObjectChild h o i <> -1 ->
               P (simGetObjectChild h o i)) ->
  forall fuel : nat, searchCustomDataField h fuel root field = OutOfFuel.
Proof.
  intros Hroot Hfalse Hchild Hclosed fuel.
  unfold searchCustomDataField, searchTrace.
  apply (searchLoop_never_ends h field P fuel Hfalse Hchild Hclosed).
  - discriminate.
  - cbn. constructor; [exact Hroot | constructor].
Qed.

Lemma searchCustomDataField_no_cycle_detection_witness :
  searchCustomDataField self_loop_scene 1000 1 FIELD_BODY = OutOfFuel.
Proof.
  generalize 1000%nat.
  apply (searchCustomDataField_no_cycle_detection self_loop_scene FIELD_BODY 1
           (fun o => o = 1)).
  - reflexivity.
  - intros o ->. reflexivity.
  - intros o ->. discriminate.
  - intros o i -> Hc. cbn in Hc |- *.
    destruct (i <? 0); [congruence|].
    destruct (Z.to_nat i) as [|[|n]]; cbn in Hc |- *; congruence.
Defined.

(** ** Nearest match *)





(** ** Construction *)

Lemma search_result_carries (h : Host) (fuel : nat) (root field obj : Z) :
  searchCustomDataField h fuel root field = Ret obj ->
  obj = -1 \/ hasCustomDataField h obj field = Ret true.
Proof.
  unfold searchCustomDataField, searchTrace. intros Hrun.
  destruct (searchLoop h fuel field (push_back deque_empty root))
    as [r log] eqn:Hloop.
  cbn [fst] in Hrun. subst r. apply (searchLoop_sound _ _ _ _ _ _ Hloop).
Qed.

Lemma search_tree_result (h : Host) (t : tree) (f0 field : Z) (fuel : nat) :
  representsb h t = true ->
  forallb (decodes h f0) (objects t) = true ->
  (size t < fuel)%nat ->
  searchCustomDataField h fuel (root t) field
  = Ret (first_carrier h t field)
  /\ (first_carrier h t field = -1 \/ In (first_carrier h t field) (objects t)).
Proof.
  intros Hrep Hdec Hfuel.
  destruct (searchTrace_tree h t field fuel Hrep Hfuel) as (log & Hrun & _).
  destruct (bfs_order_objects t) as [Hperm _].
  split.
  - unfold searchCustomDataField. rewrite Hrun. cbn [fst].
    apply first_hit_find. apply List.Forall_forall. intros o Ho.
    rewrite forallb_forall in Hdec.
    rewrite (decodes_any_field h o field f0). apply Hdec.
    apply (Permutation_in _ Hperm). exact Ho.
  - unfold first_carrier.
    destruct (find (carries h field) (bfs_order t)) as [o|] eqn:Hf;
      [|left; reflexivity].
    right. apply find_some in Hf as [Hin _].
    apply (Permutation_in _ Hperm). exact Hin.
Qed.

Lemma printObjWithLabel_returns
    (simGetObjectName : Z -> option string) (name : string) (obj : Z) :
  obj = -1 \/ is_Some (simGetObjectName obj) ->
  exists l, printObjWithLabel simGetObjectName name obj = Ret l.
Proof.
  intros Hobj. unfold printObjWithLabel.
  destruct (Z.eqb_spec obj (-1)) as [_|Hne]; [eexists; reflexivity|].
  destruct Hobj as [Heq|[n Hn]]; [contradiction|].
  rewrite Hn. eexists; reflexivity.
Qed.

(** X12: on a host that shows a finite tree whose custom data decodes, the
    constructor called on the root returns, when the identifier and the
    names of the objects can be read, an object whose body, target, cameras
    and four motors are each the first object in breadth-first order that
    carries the field of that role, and -1 for a role that no object
    carries; a missing role does not make the construction fail. *)
Theorem Quadcopter_ctor_tree
    (h : Host) (simGetObjectUniqueIdentifier : Z -> option Z)
    (simGetObjectName : Z -> option string)
    (t : tree) (fuel : nat) (uniqueID : Z) :
  representsb h t = true ->
  forallb (decodes h FIELD_QUADCOPTER) (objects t) = true ->
  (size t < fuel)%nat ->
  simGetObjectUniqueIdentifier (root t) = Some uniqueID ->
  (forall obj, In obj (objects t) -> is_Some (simGetObjectName obj)) ->
  exists log : list event,
    Quadcopter_ctor h simGetObjectUniqueIdentifier simGetObjectName fuel
      (root t)
    = Ret ({| m_obj := root t;
              m_uniqueID := uniqueID;
              m_body := first_carrier h t FIELD_BODY;
              m_target := first_carrier h t FIELD_TARGET;
              m_cameraDown := first_carrier h t FIELD_CAMERA_DOWN;
              m_cameraFront := first_carrier h t FIELD_CAMERA_FRONT;
              m_motors := [first_carrier h t FIELD_MOTOR_0;
                           first_carrier h t FIELD_MOTOR_1;
                           first_carrier h t FIELD_MOTOR_2;
                           first_carrier h t FIELD_MOTOR_3] |}, log).
Proof.
  intros Hrep Hdec Hfuel Huid Hnames.
  assert (Hsearch : forall field,
             searchCustomDataField h fuel (root t) field
             = Ret (first_carrier h t field)
             /\ forall name,
                  exists l', printObjWithLabel simGetObjectName name
                               (first_carrier h t field) = Ret l').
  { intros field.
    destruct (search_tree_result h t FIELD_QUADCOPTER field fuel Hrep Hdec Hfuel)
      as [Hres Hin].
    split; [exact Hres|]. intros name.
    apply printObjWithLabel_returns.
    destruct Hin as [Heq|Hin]; [left; exact Heq | right; apply Hnames, Hin]. }
  assert (Hroot : exists l, printObjWithLabel simGetObjectName "Quadcopter:"
                              (root t) = Ret l).
  { apply printObjWithLabel_returns. right. apply Hnames.
    destruct t; left; reflexivity. }
  unfold Quadcopter_ctor.
  destruct (Hsearch FIELD_BODY) as [-> Hp1].
  destruct (Hsearch FIELD_TARGET) as [-> Hp2].
  destruct (Hsearch FIELD_CAMERA_DOWN) as [-> Hp3].
  destruct (Hsearch FIELD_CAMERA_FRONT) as [-> Hp4].
  destruct (Hsearch FIELD_MOTOR_0) as [-> Hp5].
  destruct (Hsearch FIELD_MOTOR_1) as [-> Hp6].
  destruct (Hsearch FIELD_MOTOR_2) as [-> Hp7].
  destruct (Hsearch FIELD_MOTOR_3) as [-> Hp8].
  cbn [mbind res_bind]. rewrite Huid.
  destruct Hroot as [l1 ->].
  destruct (Hp1 "Body:"%string) as [l2 ->].
  destruct (Hp2 "Target:"%string) as [l3 ->].
  destruct (Hp5 "Motor #1:"%string) as [l4 ->].
  destruct (Hp6 "Motor #2:"%string) as [l5 ->].
  destruct (Hp7 "Motor #3:"%string) as [l6 ->].
  destruct (Hp8 "Motor #4:"%string) as [l7 ->].
  destruct (Hp3 "Floor Cam:"%string) as [l8 ->].
  destruct (Hp4 "Front Cam:"%string) as [l9 ->].
  cbn [mbind res_bind]. eexists. reflexivity.
Qed.

Lemma Quadcopter_ctor_tree_witness :
  exists log : list event,
    Quadcopter_ctor quadcopter_scene example_uid example_name 8 1
    = Ret ({| m_obj := 1; m_uniqueID := 1001; m_body := 2; m_target := 3;
              m_cameraDown := -1; m_cameraFront := -1;
              m_motors := [4; 5; 6; 7] |}, log).
Proof.
  exact (Quadcopter_ctor_tree quadcopter_scene example_uid example_name
           example_tree 8 1001 eq_refl eq_refl ltac:(simpl; lia) eq_refl
           (fun obj _ => ex_intro _ _ eq_refl)).
Defined.

(** X13: on any host, whenever the constructor returns, the object it
    built is bound to the object it was called on, has exactly four motor
    slots, and each of its eight role bindings is either -1 or an object
    that carries the field of that role. *)
Theorem Quadcopter_ctor_sound
    (h : Host) (simGetObjectUniqueIdentifier : Z -> option Z)
    (simGetObjectName : Z -> option string)
    (fuel : nat) (obj : Z) (b : Bindings) (log : list event) :
  Quadcopter_ctor h simGetObjectUniqueIdentifier simGetObjectName fuel obj
  = Ret (b, log) ->
  m_obj b = obj
  /\ simGetObjectUniqueIdentifier obj = Some (m_uniqueID b)
  /\ bound h (m_body b) FIELD_BODY
  /\ bound h (m_target b) FIELD_TARGET
  /\ bound h (m_cameraDown b) FIELD_CAMERA_DOWN
  /\ bound h (m_cameraFront b) FIELD_CAMERA_FRONT
  /\ exists motor0 motor1 motor2 motor3 : Z,
       m_motors b = [motor0; motor1; motor2; motor3]
       /\ bound h motor0 FIELD_MOTOR_0 /\ bound h motor1 FIELD_MOTOR_1
       /\ bound h motor2 FIELD_MOTOR_2 /\ bound h motor3 FIELD_MOTOR_3.
Proof.
  unfold Quadcopter_ctor, bound. intros Hctor.
  destruct (searchCustomDataField h fuel obj FIELD_BODY)
    as [body| | |] eqn:H1; try discriminate.
  destruct (searchCustomDataField h fuel obj FIELD_TARGET)
    as [target| | |] eqn:H2; try discriminate.
  destruct (searchCustomDataField h fuel obj FIELD_CAMERA_DOWN)
    as [cameraDown| | |] eqn:H3; try discriminate.
  destruct (searchCustomDataField h fuel obj FIELD_CAMERA_FRONT)
    as [cameraFront| | |] eqn:H4; try discriminate.
  destruct (searchCustomDataField h fuel obj FIELD_MOTOR_0)
    as [motor0| | |] eqn:H5; try discriminate.
  destruct (searchCustomDataField h fuel obj FIELD_MOTOR_1)
    as [motor1| | |] eqn:H6; try discriminate.
  destruct (searchCustomDataField h fuel obj FIELD_MOTOR_2)
    as [motor2| | |] eqn:H7; try discriminate.
  destruct (searchCustomDataField h fuel obj FIELD_MOTOR_3)
    as [motor3| | |] eqn:H8; try discriminate.
  cbn [mbind res_bind] in Hctor.
  destruct (simGetObjectUniqueIdentifier obj) as [uid|]; [|discriminate].
  repeat match type of Hctor with
         | context [printObjWithLabel ?n ?s ?o] =>
             destruct (printObjWithLabel n s o); try discriminate;
             cbn [mbind res_bind] in Hctor
         end.
  injection Hctor as <- _. cbn [m_obj m_uniqueID m_body m_target m_cameraDown
    m_cameraFront m_motors].
  apply search_result_carries in H1, H2, H3, H4, H5, H6, H7, H8.
  repeat split; try assumption.
  exists motor0, motor1, motor2, motor3. repeat split; assumption.
Qed.

Lemma Quadcopter_ctor_sound_witness :
  m_obj example_bindings = 1
  /\ bound quadcopter_scene (-1) FIELD_CAMERA_DOWN
  /\ bound quadcopter_scene 2 FIELD_BODY.
Proof.
  destruct (Quadcopter_ctor_sound quadcopter_scene example_uid example_name
              8 1
              {| m_obj := 1; m_uniqueID := 1001; m_body := 2; m_target := 3;
                 m_cameraDown := -1; m_cameraFront := -1;
                 m_motors := [4; 5; 6; 7] |}
              (match Quadcopter_ctor quadcopter_scene example_uid
                       example_name 8 1 with
               | Ret (_, l) => l
               | _ => []
               end))
    as (Hobj & _ & Hbody & _ & Hdown & _).
  - vm_compute. reflexivity.
  - split; [reflexivity|]. split; [exact Hdown | exact Hbody].
Defined.

(** X14: when the custom data of the object itself does not decode, the
    exception leaves the constructor, so no quadcopter is built for this
    object, and it leaves [query] as well. *)
Theorem Quadcopter_ctor_throws
    (h : Host) (simGetObjectUniqueIdentifier : Z -> option Z)
    (simGetObjectName : Z -> option string)
    (fuel : nat) (obj : Z) (e : exn) :
  0 < simGetObjectCustomDataLength h obj DATA_ID ->
  parseCustomData
    (customDataBuffer h obj (simGetObjectCustomDataLength h obj DATA_ID))
  = Throw e ->
  Quadcopter_ctor h simGetObjectUniqueIdentifier simGetObjectName (S fuel) obj
  = Throw e
  /\ query h obj = Throw e.
Proof.
  intros Hsize Hparse.
  split; [|apply hasCustomDataField_throws; assumption].
  unfold Quadcopter_ctor, searchCustomDataField, searchTrace.
  cbn [searchLoop push_back deque_empty items pushed app].
  rewrite (hasCustomDataField_throws h obj FIELD_BODY e Hsize Hparse).
  reflexivity.
Qed.

Lemma Quadcopter_ctor_throws_witness :
  Quadcopter_ctor truncated_scene example_uid example_name 1 1
  = Throw format_error
  /\ query truncated_scene 1 = Throw format_error.
Proof.
  apply (Quadcopter_ctor_throws truncated_scene example_uid example_name 0 1).
  - vm_compute. reflexivity.
  - vm_compute. reflexivity.
Defined.

(** ** The tick as a whole *)

Lemma setMotorParticleVelocity_in_range
    (h : Host) (to_string : F32.float -> string) (b : Bindings)
    (n : Z) (v : F32.float) (s : ControllerState) :
  0 <= n <= 3 ->
  setMotorParticleVelocity h to_string b n v s
  = (s, motor_write h to_string b n v, Some tt).
Proof.
  intros Hn. unfold setMotorParticleVelocity, motor_write.
  destruct (Z.ltb_spec n 0); [lia|].
  destruct (Z.gtb_spec n 3); [lia|]. cbn [orb].
  destruct (simGetScriptAssociatedWithObject h (motor b n) =? -1);
    reflexivity.
Qed.

Lemma horizontalControl_ok (h : Host) (b : Bindings) (s : ControllerState)
    (sp m vx vy : floats) :
  simGetObjectPosition h (m_target b) (m_body b) = Some sp ->
  simGetObjectMatrix h (m_body b) (-1) = Some m ->
  simTransformVector h m (floats_of [F32.lit 1 1; F32.lit 0 1; F32.lit 0 1])
  = Some vx ->
  simTransformVector h m (floats_of [F32.lit 0 1; F32.lit 1 1; F32.lit 0 1])
  = Some vy ->
  let alphaE := (vy 2%nat - m 11%nat)%f32 in
  let betaE := (vx 2%nat - m 11%nat)%f32 in
  horizontalControl h b s
  = (set_m_psp1 (sp 1%nat)
       (set_m_psp0 (sp 0%nat) (set_m_pBetaE betaE (set_m_pAlphaE alphaE s))),
     [],
     Some ((F32.lit 25 100 * alphaE + F32.lit 21 10 * (alphaE - m_pAlphaE s)
            + sp 1%nat * F32.lit 5 1000
            + F32.lit 1 1 * (sp 1%nat - m_psp1 s))%f32,
           (- F32.lit 25 100 * betaE - F32.lit 21 10 * (betaE - m_pBetaE s)
            - sp 0%nat * F32.lit 5 1000
            - F32.lit 1 1 * (sp 0%nat - m_psp0 s))%f32)).
Proof.
  intros Hsp Hm Hvx Hvy alphaE betaE.
  unfold horizontalControl. run_tick.
  rewrite Hsp, Hm, Hvx, Hvy. reflexivity.
Qed.

Lemma rotationalControl_ok (h : Host) (b : Bindings) (s : ControllerState)
    (euler : floats) :
  simGetObjectOrientation h (m_body b) (m_target b) = Some euler ->
  rotationalControl h b s
  = (set_m_prevEuler (euler 2%nat) s, [],
     Some (euler 2%nat * F32.lit 1 10
           + F32.lit 2 1 * (euler 2%nat - m_prevEuler s))%f32).
Proof.
  intros Heuler. unfold rotationalControl. run_tick.
  rewrite Heuler. reflexivity.
Qed.

(** A tick whose three stages complete: final state and events. *)
Lemma pidControl_stages
    (h : Host) (to_string : F32.float -> string) (b : Bindings)
    (s s1 s2 s3 : ControllerState)
    (thrust alphaCorr betaCorr rotCorr : F32.float) :
  verticalControl h b s = (s1, [], Some thrust) ->
  horizontalControl h b s1 = (s2, [], Some (alphaCorr, betaCorr)) ->
  rotationalControl h b s2 = (s3, [], Some rotCorr) ->
  pidControl h to_string b s
  = (s3,
     motor_write h to_string b 0
       (nth 0 (motorVel thrust alphaCorr betaCorr rotCorr) F32.zero)
     ++ motor_write h to_string b 1
          (nth 1 (motorVel thrust alphaCorr betaCorr rotCorr) F32.zero)
     ++ motor_write h to_string b 2
          (nth 2 (motorVel thrust alphaCorr betaCorr rotCorr) F32.zero)
     ++ motor_write h to_string b 3
          (nth 3 (motorVel thrust alphaCorr betaCorr rotCorr) F32.zero),
     Some tt).
Proof.
  intros Hvert Hhor Hrot. unfold pidControl.
  unfold mbind at 1. unfold Tick_bind at 1. rewrite Hvert.
  unfold mbind at 1. unfold Tick_bind at 1. rewrite Hhor.
  unfold mbind at 1. unfold Tick_bind at 1. rewrite Hrot.
  unfold mbind, Tick_bind.
  rewrite !setMotorParticleVelocity_in_range by lia.
  cbn [app]. reflexivity.
Qed.

(** X15: a tick whose reads all succeed commands the motors 0, 1, 2, 3 in
    this order, each through the script of its motor object under the
    name "particleVelocity"; a motor that has no script (a motor that was
    not found, for instance) is passed over and the others are still
    commanded.  Nothing else is written or printed. *)
Theorem pidControl_writes
    (h : Host) (to_string : F32.float -> string) (b : Bindings)
    (s s1 s2 s3 : ControllerState)
    (thrust alphaCorr betaCorr rotCorr : F32.float) :
  verticalControl h b s = (s1, [], Some thrust) ->
  horizontalControl h b s1 = (s2, [], Some (alphaCorr, betaCorr)) ->
  rotationalControl h b s2 = (s3, [], Some rotCorr) ->
  let v := fun n => nth n (motorVel thrust alphaCorr betaCorr rotCorr)
                      F32.zero in
  pidControl h to_string b s
  = (s3,
     motor_write h to_string b 0 (v 0%nat)
     ++ motor_write h to_string b 1 (v 1%nat)
     ++ motor_write h to_string b 2 (v 2%nat)
     ++ motor_write h to_string b 3 (v 3%nat),
     Some tt)
  /\ (forall n : Z,
        simGetScriptAssociatedWithObject h (motor b n) = -1 ->
        forall x, motor_write h to_string b n x = [])
  /\ (forall n : Z,
        simGetScriptAssociatedWithObject h (motor b n) <> -1 ->
        forall x,
          motor_write h to_string b n x
          = [SetScriptSimulationParameter
               (simGetScriptAssociatedWithObject h (motor b n))
               "particleVelocity" (to_string x)]).
Proof.
  intros Hvert Hhor Hrot v. split; [|split].
  - apply (pidControl_stages h to_string b s s1 s2 s3); assumption.
  - intros n Hn x. unfold motor_write. rewrite Hn. reflexivity.
  - intros n Hn x. unfold motor_write.
    destruct (Z.eqb_spec (simGetScriptAssociatedWithObject h (motor b n)) (-1));
      [contradiction | reflexivity].
Qed.

Lemma pidControl_writes_witness :
  pidControl level_hover example_to_string three_motor_bindings zero_state
  = (set_m_lastE (F32.lit 1 1) (set_m_cumul (F32.lit 1 1) zero_state),
     [SetScriptSimulationParameter 21 "particleVelocity" "6.335000";
      SetScriptSimulationParameter 22 "particleVelocity" "6.335000";
      SetScriptSimulationParameter 24 "particleVelocity" "6.335000"],
     Some tt).
Proof.
  pose (s1 := set_m_lastE (F32.lit 1 1)
                (set_m_cumul (F32.lit 1 1) zero_state)).
  destruct (pidControl_writes level_hover example_to_string
              three_motor_bindings zero_state s1 s1 s1
              (F32.lit 6335 1000) F32.zero (S754_zero true) F32.zero
              eq_refl eq_refl eq_refl) as [Hrun _].
  rewrite Hrun. reflexivity.
Defined.

(** X16: after a tick whose reads all succeed the controller memory holds
    what this tick observed: the altitude error, the two tilt errors, the
    target position relative to the body and the yaw.  Of the memory before
    the tick only the integral, increased by the error, and the time stamp,
    untouched, remain. *)
Theorem pidControl_memory
    (h : Host) (to_string : F32.float -> string) (b : Bindings)
    (s : ControllerState) (targetPos pos vel sp m vx vy euler : floats) :
  simGetObjectPosition h (m_target b) (-1) = Some targetPos ->
  simGetObjectPosition h (m_body b) (-1) = Some pos ->
  simGetObjectVelocity h (m_obj b) = Some vel ->
  simGetObjectPosition h (m_target b) (m_body b) = Some sp ->
  simGetObjectMatrix h (m_body b) (-1) = Some m ->
  simTransformVector h m (floats_of [F32.lit 1 1; F32.lit 0 1; F32.lit 0 1])
  = Some vx ->
  simTransformVector h m (floats_of [F32.lit 0 1; F32.lit 1 1; F32.lit 0 1])
  = Some vy ->
  simGetObjectOrientation h (m_body b) (m_target b) = Some euler ->
  fst (fst (pidControl h to_string b s))
  = {| m_last_save_time := m_last_save_time s;
       m_cumul := (m_cumul s + (targetPos 2%nat - pos 2%nat))%f32;
       m_lastE := (targetPos 2%nat - pos 2%nat)%f32;
       m_pAlphaE := (vy 2%nat - m 11%nat)%f32;
       m_pBetaE := (vx 2%nat - m 11%nat)%f32;
       m_psp0 := sp 0%nat;
       m_psp1 := sp 1%nat;
       m_prevEuler := euler 2%nat |}
  /\ snd (pidControl h to_string b s) = Some tt.
Proof.
  intros Htarget Hpos Hvel Hsp Hm Hvx Hvy Heuler.
  rewrite (pidControl_stages h to_string b s _ _ _ _ _ _ _
             (verticalControl_ok h b s _ _ _ Htarget Hpos Hvel)
             (horizontalControl_ok h b _ _ _ _ _ Hsp Hm Hvx Hvy)
             (rotationalControl_ok h b _ _ Heuler)).
  split; reflexivity.
Qed.

Lemma pidControl_memory_witness :
  fst (fst (pidControl level_hover example_to_string example_bindings
              zero_state))
  = {| m_last_save_time := F32.zero;
       m_cumul := F32.lit 1 1;
       m_lastE := F32.lit 1 1;
       m_pAlphaE := F32.zero;
       m_pBetaE := F32.zero;
       m_psp0 := F32.zero;
       m_psp1 := F32.zero;
       m_prevEuler := F32.zero |}
  /\ snd (pidControl level_hover example_to_string example_bindings
            zero_state) = Some tt.
Proof.
  exact (pidControl_memory level_hover example_to_string example_bindings
           zero_state _ _ _ _ _ _ _ _
           eq_refl eq_refl eq_refl eq_refl eq_refl eq_refl eq_refl eq_refl).
Defined.

Lemma rotationalControl_time (h : Host) (b : Bindings) (s : ControllerState) :
  m_last_save_time (fst (fst (rotationalControl h b s))) = m_last_save_time s.
Proof.
  unfold rotationalControl. run_tick.
  destruct (simGetObjectOrientation h (m_body b) (m_target b)); reflexivity.
Qed.

Lemma pidControl_stops
    (h : Host) (to_string : F32.float -> string) (b : Bindings)
    (s : ControllerState) :
  (forall s' l, verticalControl h b s = (s', l, None) ->
     pidControl h to_string b s = (s', l, None))
  /\ (forall s1 thrust s' l,
        verticalControl h b s = (s1, [], Some thrust) ->
        horizontalControl h b s1 = (s', l, None) ->
        pidControl h to_string b s = (s', l, None))
  /\ (forall s1 thrust s2 corr s' l,
        verticalControl h b s = (s1, [], Some thrust) ->
        horizontalControl h b s1 = (s2, [], Some corr) ->
        rotationalControl h b s2 = (s', l, None) ->
        pidControl h to_string b s = (s', l, None)).
Proof.
  split; [|split].
  - intros s' l Hvert. unfold pidControl.
    unfold mbind at 1. unfold Tick_bind at 1. rewrite Hvert. reflexivity.
  - intros s1 thrust s' l Hvert Hhor. unfold pidControl.
    unfold mbind at 1. unfold Tick_bind at 1. rewrite Hvert.
    unfold mbind at 1. unfold Tick_bind at 1. rewrite Hhor. reflexivity.
  - intros s1 thrust s2 [alphaCorr betaCorr] s' l Hvert Hhor Hrot.
    unfold pidControl.
    unfold mbind at 1. unfold Tick_bind at 1. rewrite Hvert.
    unfold mbind at 1. unfold Tick_bind at 1. rewrite Hhor.
    unfold mbind at 1. unfold Tick_bind at 1. rewrite Hrot. reflexivity.
Qed.

(** X17: a tick runs to its end exactly when all its reads succeed, and
    whether it does or not it leaves the time stamp of the last image dump
    as it was. *)
Theorem pidControl_completes_iff
    (h : Host) (to_string : F32.float -> string) (b : Bindings)
    (s : ControllerState) :
  snd (pidControl h to_string b s)
  = (if reads_succeed h b then Some tt else None)
  /\ m_last_save_time (fst (fst (pidControl h to_string b s)))
     = m_last_save_time s.
Proof.
  unfold reads_succeed.
  destruct (pidControl_stops h to_string b s) as (Hstop1 & Hstop2 & Hstop3).
  destruct (verticalControl_cases h b s)
    as [[Hv (line & expr & _ & Hvert)]
       |[Hv (s1 & thrust & Hvert & Ht1 & _)]]; rewrite Hv; cbn [andb].
  { rewrite (Hstop1 _ _ Hvert). split; reflexivity. }
  destruct (horizontalControl_cases h b s1)
    as [[Hh (line & expr & _ & Hhor)]
       |[Hh (s2 & [alphaCorr betaCorr] & Hhor & Ht2 & _)]]; rewrite Hh;
    cbn [andb].
  { rewrite (Hstop2 _ _ _ _ Hvert Hhor). split; [reflexivity | exact Ht1]. }
  pose proof (rotationalControl_time h b s2) as Ht3.
  destruct (rotationalControl_cases h b s2)
    as [[Hr (expr & Hrot)]|[Hr (s3 & rotCorr & Hrot)]]; rewrite Hr;
    rewrite Hrot in Ht3; cbn [fst] in Ht3.
  { rewrite (Hstop3 _ _ _ _ _ _ Hvert Hhor Hrot).
    split; [reflexivity | cbn [fst]; congruence]. }
  rewrite (pidControl_stages h to_string b s s1 s2 s3 _ _ _ _ Hvert Hhor Hrot).
  split; [reflexivity | cbn [fst]; congruence].
Qed.

(** ** Values that are not finite *)

Lemma F32_add_not_finite_l (x y : F32.float) :
  F32.is_finite x = false -> F32.is_finite (x + y)%f32 = false.
Proof.
  unfold F32.add, SFadd.
  destruct x as [sx|sx| |sx mx ex]; try discriminate; intros _;
    destruct y as [sy|sy| |sy my ey]; try reflexivity.
  destruct sx, sy; reflexivity.
Qed.

Lemma F32_add_not_finite_r (x y : F32.float) :
  F32.is_finite y = false -> F32.is_finite (x + y)%f32 = false.
Proof.
  unfold F32.add, SFadd.
  destruct y as [sy|sy| |sy my ey]; try discriminate; intros _;
    destruct x as [sx|sx| |sx mx ex]; try reflexivity.
  destruct sx, sy; reflexivity.
Qed.

Lemma F32_zero_mul_not_finite (x : F32.float) :
  F32.is_finite x = false -> (iParam * x)%f32 = S754_nan.
Proof. destruct x; try discriminate; reflexivity. Qed.

Lemma F32_add_nan_r (x : F32.float) : (x + S754_nan)%f32 = S754_nan.
Proof. destruct x; reflexivity. Qed.

Lemma F32_add_nan_l (x : F32.float) : (S754_nan + x)%f32 = S754_nan.
Proof. destruct x; reflexivity. Qed.

(** X18: the integral is accumulated although its gain is 0.0, and the
    product 0.0 * integral is a NaN as soon as the integral is not finite.
    So when the integral before the tick, or the altitude error of the
    tick, is an infinity or a NaN, the thrust of this tick is NaN, all four
    motor values are NaN whatever the corrections are, and the integral is
    still not finite after the tick: only [simulationStarted] ends it. *)
Theorem verticalControl_not_finite
    (h : Host) (b : Bindings) (s : ControllerState)
    (targetPos pos vel : floats) :
  simGetObjectPosition h (m_target b) (-1) = Some targetPos ->
  simGetObjectPosition h (m_body b) (-1) = Some pos ->
  simGetObjectVelocity h (m_obj b) = Some vel ->
  F32.is_finite (m_cumul s) = false
  \/ F32.is_finite (targetPos 2%nat - pos 2%nat)%f32 = false ->
  exists s1 : ControllerState,
    verticalControl h b s = (s1, [], Some S754_nan)
    /\ F32.is_finite (m_cumul s1) = false
    /\ (forall alphaCorr betaCorr rotCorr : F32.float,
          motorVel S754_nan alphaCorr betaCorr rotCorr
          = [S754_nan; S754_nan; S754_nan; S754_nan])
    /\ F32.is_finite (m_cumul (state (simulationStarted
                                        {| bindings := b; state := s1 |})))
       = true.
Proof.
  intros Htarget Hpos Hvel Hbad.
  rewrite (verticalControl_ok h b s _ _ _ Htarget Hpos Hvel).
  assert (Hint : F32.is_finite (m_cumul s + (targetPos 2%nat - pos 2%nat))%f32
                 = false).
  { destruct Hbad as [Hc|He];
      [apply F32_add_not_finite_l | apply F32_add_not_finite_r]; assumption. }
  exists (set_m_lastE (targetPos 2%nat - pos 2%nat)%f32
            (set_m_cumul (m_cumul s + (targetPos 2%nat - pos 2%nat))%f32 s)).
  split; [|split; [exact Hint | split; [|reflexivity]]].
  - rewrite (F32_zero_mul_not_finite _ Hint).
    rewrite F32_add_nan_r, !F32_add_nan_l. reflexivity.
  - intros alphaCorr betaCorr rotCorr. reflexivity.
Qed.

Lemma verticalControl_not_finite_witness :
  exists s1 : ControllerState,
    verticalControl nan_target_scene example_bindings zero_state
    = (s1, [], Some S754_nan)
    /\ F32.is_finite (m_cumul s1) = false
    /\ (forall alphaCorr betaCorr rotCorr : F32.float,
          motorVel S754_nan alphaCorr betaCorr rotCorr
          = [S754_nan; S754_nan; S754_nan; S754_nan])
    /\ F32.is_finite
         (m_cumul (state (simulationStarted
                            {| bindings := example_bindings; state := s1 |})))
       = true.
Proof.
  apply (verticalControl_not_finite nan_target_scene example_bindings
           zero_state
           (floats_of [F32.zero; F32.zero; S754_nan])
           (floats_of [F32.lit 0 1; F32.lit 0 1; F32.lit 1 1])
           (floats_of [F32.lit 0 1; F32.lit 0 1; F32.zero])
           eq_refl eq_refl eq_refl).
  right. reflexivity.
Defined.

(** ** Reading a motor back *)

(** X19: for a motor index within 0..3 whose motor has a script and whose
    parameter can be read, [getMotorParticleVelocity] returns what
    [std::stof] makes of the text, printing nothing; and it throws only in
    this case, the exception being the one [std::stof] throws on that
    text. *)
Theorem getMotorParticleVelocity_parses
    (h : Host) (stof : string -> res F32.float) (b : Bindings) (n : Z) :
  (forall text : string,
     0 <= n <= 3 ->
     simGetScriptAssociatedWithObject h (motor b n) <> -1 ->
     simGetScriptSimulationParameter h
       (simGetScriptAssociatedWithObject h (motor b n)) "particleVelocity"
     = Some text ->
     getMotorParticleVelocity h stof b n = (stof text, []))
  /\ (forall e : exn,
        fst (getMotorParticleVelocity h stof b n) = Throw e ->
        0 <= n <= 3
        /\ simGetScriptAssociatedWithObject h (motor b n) <> -1
        /\ exists text : string,
             simGetScriptSimulationParameter h
               (simGetScriptAssociatedWithObject h (motor b n))
               "particleVelocity" = Some text
             /\ stof text = Throw e).
Proof.
  unfold getMotorParticleVelocity. split.
  - intros text Hn Hscript Hparam.
    destruct (Z.ltb_spec n 0); [lia|].
    destruct (Z.gtb_spec n 3); [lia|]. cbn [orb].
    destruct (Z.eqb_spec (simGetScriptAssociatedWithObject h (motor b n)) (-1));
      [contradiction|].
    rewrite Hparam. reflexivity.
  - intros e Hthrow.
    destruct (Z.ltb_spec n 0); [discriminate|].
    destruct (Z.gtb_spec n 3); [discriminate|]. cbn [orb] in Hthrow.
    destruct (Z.eqb_spec (simGetScriptAssociatedWithObject h (motor b n)) (-1));
      [discriminate|].
    destruct (simGetScriptSimulationParameter h _ "particleVelocity")
      as [text|]; [|discriminate].
    split; [lia|]. split; [assumption|]. exists text. split; [reflexivity|].
    exact Hthrow.
Qed.

Lemma getMotorParticleVelocity_parses_witness :
  getMotorParticleVelocity (parameter_scene "0.000000") example_stof
    example_bindings 2 = (Ret F32.zero, [])
  /\ getMotorParticleVelocity (parameter_scene "fast") example_stof
       example_bindings 2 = (Throw (runtime_error "stof"), []).
Proof.
  split.
  - apply (proj1 (getMotorParticleVelocity_parses (parameter_scene "0.000000")
                    example_stof example_bindings 2) "0.000000"%string);
      [lia | discriminate | reflexivity].
  - apply (proj1 (getMotorParticleVelocity_parses (parameter_scene "fast")
                    example_stof example_bindings 2) "fast"%string);
      [lia | discriminate | reflexivity].
Defined.

(** ** Instances of the codec properties *)

Lemma parseUint32_little_endian_witness :
  parseUint32 [Byte.x78; Byte.x56; Byte.x34; Byte.x12; Byte.xaa]
  = Ret (305419896, [Byte.xaa])
  /\ le32 305419896 = [Byte.x78; Byte.x56; Byte.x34; Byte.x12]
  /\ parseUint32 (le32 4294967295 ++ [Byte.xaa])
     = Ret (4294967295, [Byte.xaa]).
Proof.
  destruct (parseUint32_little_endian Byte.x78 Byte.x56 Byte.x34 Byte.x12
              [Byte.xaa]) as (Hparse & _ & Hbytes & Hback).
  split; [exact Hparse|]. split; [exact Hbytes|].
  apply Hback. lia.
Defined.

Lemma parseCustomData_wire_witness :
  parseCustomData (wire [(7, [Byte.x01]); (8, []); (7, [Byte.x02; Byte.x03])])
  = Ret (decoded [(7, [Byte.x01]); (8, []); (7, [Byte.x02; Byte.x03])])
  /\ decoded [(7, [Byte.x01]); (8, []); (7, [Byte.x02; Byte.x03])] !! 7
     = Some [Byte.x02; Byte.x03].
Proof.
  destruct (parseCustomData_wire
              [(7, [Byte.x01]); (8, []); (7, [Byte.x02; Byte.x03])])
    as (Hparse & _ & Hlast & _).
  - repeat constructor; cbn; lia.
  - split; [exact Hparse|].
    apply (Hlast [(7, [Byte.x01]); (8, [])] [] 7 [Byte.x02; Byte.x03]);
      [reflexivity|].
    cbn. apply not_elem_of_nil.
Defined.

Lemma parseCustomData_ret_iff_witness :
  exists es : list (Z * byte_vector),
    Forall fits32 es
    /\ entry Byte.x07 Byte.x01 [Byte.xff] = wire es
    /\ (<[7 := [Byte.xff]]> ∅ : CustomData) = decoded es.
Proof.
  apply (proj1 (parseCustomData_ret_iff (entry Byte.x07 Byte.x01 [Byte.xff])
                  (<[7 := [Byte.xff]]> ∅))).
  reflexivity.
Defined.
